(** * yagalog: a leveled console + file logger

    Shallow embedding of package [logger] and proofs about its level
    gate, its two output paths and the life cycle of its file sink.

    Go strings are byte strings: they are modelled by [string] (a list
    of [ascii], one per byte).  [LogLevel] is a Go [int] on which the code
    only compares, so it is a [Z].  Pointer receivers become
    a state component; the operating system and the Go runtime are a
    second state component, [World].  The mutex [mu] only serialises
    concurrent callers; the model is sequential and leaves it out. *)

From Stdlib Require Import ZArith String Ascii List Bool Lia.
From stdpp Require Import base option list gmap strings pretty.

Local Open Scope string_scope.
Local Open Scope list_scope.
Local Open Scope Z_scope.

(** ** Values of the Go runtime *)

(** [type LogLevel int] and its five constants ([iota] from 0). *)
Definition LogLevel : Type := Z.

Definition DEBUG : LogLevel := 0.
Definition INFO : LogLevel := 1.
Definition WARNING : LogLevel := 2.
Definition ERROR : LogLevel := 3.
Definition FATAL : LogLevel := 4.

(** The variadic [v ...interface{}] of the leveled methods. *)
Inductive any : Type :=
| AString (s : string)
| AInt (n : Z)
| ABool (b : bool).

(** An [os.File] is an index into the table of files the process opened. *)
Abbreviation File := nat (only parsing).

Inductive error : Type :=
| ErrOpen (name : string)      (* the PathError of a failed os.OpenFile *)
| ErrClosed (f : File)         (* os.ErrClosed: the file is already closed *)
| ErrInvalid.                  (* os.ErrInvalid: not a file of this process *)

(** An [io.Writer] used as console destination. *)
Inductive Writer : Type :=
| Stdout
| UserWriter (id : nat).

(** The five attributes of [fatih/color] the package uses. *)
Inductive Color : Type := Cyan | Red | Green | Yellow | Magenta.

(** A [log.Logger] as built by [log.New(out, prefix, flag)]. *)
Record log_Logger : Type := log_New {
  lg_out : Writer;
  lg_prefix : string;
  lg_flag : Z
}.

Definition log_Ltime : Z := 2.

(** ** The world outside the logger

    The operating system of the model is deterministic: opening a path
    fails exactly when [can_open] says so, and closing or writing fails
    exactly on a file that is closed already.  A file is the list of the
    chunks written to it, one per successful write; the console is the
    list of the lines printed, one per [Println]. *)

Record FileEntry : Type := {
  f_name : string;
  f_closed : bool
}.

(** Calls into the runtime, with their results, in the order they were
    made.  [EvSprintf] is the formatting of a message by a leveled method. *)
Inductive Event : Type :=
| EvSprintf (format : string) (args : list any)
| EvOpenFile (name : string) (res : File + error)
| EvClose (f : File) (res : option error)
| EvWrite (f : File) (data : string) (res : option error)
| EvExit (code : Z)
| EvPanic (why : string).

Record World : Type := {
  files : list FileEntry;               (* every os.File opened so far *)
  disk : gmap string (list string);     (* per path: the chunks written, in order *)
  console : list (Writer * string);     (* what the console writers received *)
  environ : gmap string string;         (* os.Getenv *)
  color_NoColor : bool;                 (* the package global color.NoColor *)
  now : Z;                              (* the instant time.Now() returns *)
  trace : list Event
}.

Definition with_files (fs : list FileEntry) (w : World) : World :=
  {| files := fs; disk := disk w; console := console w; environ := environ w;
     color_NoColor := color_NoColor w; now := now w; trace := trace w |}.

Definition with_disk (d : gmap string (list string)) (w : World) : World :=
  {| files := files w; disk := d; console := console w; environ := environ w;
     color_NoColor := color_NoColor w; now := now w; trace := trace w |}.

Definition with_console (c : list (Writer * string)) (w : World) : World :=
  {| files := files w; disk := disk w; console := c; environ := environ w;
     color_NoColor := color_NoColor w; now := now w; trace := trace w |}.

Definition with_NoColor (b : bool) (w : World) : World :=
  {| files := files w; disk := disk w; console := console w; environ := environ w;
     color_NoColor := b; now := now w; trace := trace w |}.

Definition emit (e : Event) (w : World) : World :=
  {| files := files w; disk := disk w; console := console w; environ := environ w;
     color_NoColor := color_NoColor w; now := now w; trace := trace w ++ [e] |}.

(** Library functions whose results the logger only passes along. *)
Record Runtime : Type := {
  fmt_Sprintf : string -> list any -> string;
  time_Format : Z -> string -> string;       (* t.Format(layout) *)
  log_header : Z -> Z -> string;             (* header log.Logger prints for its flags *)
  runtime_Caller : nat -> option (string * Z);
  filepath_Base : string -> string;
  color_wrap : Color -> string -> string;    (* the text inside its escape codes *)
  can_open : string -> bool                  (* does O_APPEND|O_CREATE|O_WRONLY succeed *)
}.

(** Content of the file at [name]; a file never written to is empty. *)
Definition file_content (w : World) (name : string) : list string :=
  default [] (disk w !! name).

Definition is_open (w : World) (f : File) : bool :=
  match files w !! f with
  | Some e => negb (f_closed e)
  | None => false
  end.

(** The files that are open, by index. *)
Fixpoint open_from (i : nat) (fs : list FileEntry) : list File :=
  match fs with
  | [] => []
  | e :: fs' => (if f_closed e then [] else [i]) ++ open_from (S i) fs'
  end.

Definition open_files (w : World) : list File := open_from 0 (files w).

Definition is_Some_b {A : Type} (o : option A) : bool :=
  match o with
  | Some _ => true
  | None => false
  end.

(** ** Byte strings *)

Definition byte (c : ascii) : Z := Z.of_N (N_of_ascii c).

Definition quote : ascii := "034"%char.
Definition backslash : ascii := "092"%char.
Definition newline : ascii := "010"%char.
Definition nl : string := String newline "".

Fixpoint string_drop (n : nat) (s : string) : string :=
  match n, s with
  | O, _ => s
  | S _, EmptyString => EmptyString
  | S n', String _ s' => string_drop n' s'
  end.

Fixpoint string_take (n : nat) (s : string) : string :=
  match n, s with
  | O, _ => EmptyString
  | S _, EmptyString => EmptyString
  | S n', String c s' => String c (string_take n' s')
  end.

Definition is_ascii (c : ascii) : bool := byte c <? 0x80.

Definition not_newline (c : ascii) : bool := negb (Ascii.eqb c newline).

(** Every byte of [s] satisfies [p]. *)
Fixpoint string_forall (p : ascii -> bool) (s : string) : bool :=
  match s with
  | EmptyString => true
  | String c s' => p c && string_forall p s'
  end.


(** Go's [s[lo:hi]]: out of range is a run-time panic, rendered by [None]. *)
Definition go_slice (s : string) (lo hi : Z) : option string :=
  if (0 <=? lo) && (lo <=? hi) && (hi <=? Z.of_nat (String.length s))
  then Some (string_take (Z.to_nat (hi - lo)) (string_drop (Z.to_nat lo) s))
  else None.

(** ** encoding/json, for the records the logger writes

    The logger hands [json.Encoder] a [map[string]any] whose values are
    all strings.  [Marshal] renders such a map as one object with its keys
    in increasing byte order and every string through [appendString]. *)

Module json.

Definition RuneError : Z := 0xFFFD.

Definition in_range (c : ascii) (lo hi : Z) : bool :=
  (lo <=? byte c) && (byte c <=? hi).

Definition maskx (c : ascii) : Z := Z.land (byte c) 0x3F.

(** [utf8.DecodeRuneInString]: the first rune of [s] and its width in
    bytes; [(RuneError, 1)] when [s] does not start with a well-formed
    encoding, [(RuneError, 0)] when [s] is empty. *)
Definition DecodeRuneInString (s : string) : Z * nat :=
  match s with
  | EmptyString => (RuneError, 0%nat)
  | String c0 r0 =>
    let s0 := byte c0 in
    if s0 <? 0x80 then (s0, 1%nat)
    else if (s0 <? 0xC2) || (0xF4 <? s0) then (RuneError, 1%nat)
    else
      let lo := if s0 =? 0xE0 then 0xA0 else if s0 =? 0xF0 then 0x90 else 0x80 in
      let hi := if s0 =? 0xED then 0x9F else if s0 =? 0xF4 then 0x8F else 0xBF in
      match r0 with
      | EmptyString => (RuneError, 1%nat)
      | String c1 r1 =>
        if negb (in_range c1 lo hi) then (RuneError, 1%nat)
        else if s0 <? 0xE0 then
          (Z.lor (Z.shiftl (Z.land s0 0x1F) 6) (maskx c1), 2%nat)
        else
          match r1 with
          | EmptyString => (RuneError, 1%nat)
          | String c2 r2 =>
            if negb (in_range c2 0x80 0xBF) then (RuneError, 1%nat)
            else if s0 <? 0xF0 then
              (Z.lor (Z.lor (Z.shiftl (Z.land s0 0x0F) 12)
                            (Z.shiftl (maskx c1) 6)) (maskx c2), 3%nat)
            else
              match r2 with
              | EmptyString => (RuneError, 1%nat)
              | String c3 _ =>
                if negb (in_range c3 0x80 0xBF) then (RuneError, 1%nat)
                else
                  (Z.lor (Z.lor (Z.lor (Z.shiftl (Z.land s0 0x07) 18)
                                       (Z.shiftl (maskx c1) 12))
                                (Z.shiftl (maskx c2) 6)) (maskx c3), 4%nat)
              end
          end
      end
  end.

Definition hex (n : Z) : ascii :=
  match String.get (Z.to_nat n) "0123456789abcdef" with
  | Some c => c
  | None => "0"%char
  end.

(** [safeSet]: the ASCII bytes copied as they are; [htmlSafeSet] also
    excludes the three characters HTML escaping rewrites. *)
Definition safeSet (c : ascii) : bool :=
  (0x20 <=? byte c) && (byte c <? 0x80)
  && negb (Ascii.eqb c quote) && negb (Ascii.eqb c backslash).

Definition htmlSafeSet (c : ascii) : bool :=
  safeSet c && negb (Ascii.eqb c "<") && negb (Ascii.eqb c ">")
  && negb (Ascii.eqb c "&").

(** The escape of one ASCII byte outside the safe set. *)
Definition escape_byte (c : ascii) : string :=
  let b := byte c in
  if (b =? 0x5C) || (b =? 0x22) then String backslash (String c "")
  else if b =? 0x08 then String backslash "b"
  else if b =? 0x0C then String backslash "f"
  else if b =? 0x0A then String backslash "n"
  else if b =? 0x0D then String backslash "r"
  else if b =? 0x09 then String backslash "t"
  else String backslash
         (String "u" (String "0" (String "0"
            (String (hex (Z.shiftr b 4)) (String (hex (Z.land b 0xF)) ""))))).

(** The loop of [appendString]: one iteration per ASCII byte or per rune.
    [fuel] bounds the iterations; [String.length src] is always enough. *)
Fixpoint appendString_loop (fuel : nat) (escapeHTML : bool) (src : string) : string :=
  match fuel with
  | O => ""
  | S fuel' =>
    match src with
    | EmptyString => ""
    | String b rest =>
      if byte b <? 0x80 then
        (if htmlSafeSet b || (negb escapeHTML && safeSet b)
         then String b ""
         else escape_byte b) +:+ appendString_loop fuel' escapeHTML rest
      else
        let '(c, size) := DecodeRuneInString src in
        if (c =? RuneError) && Nat.eqb size 1 then
          String backslash "ufffd"
            +:+ appendString_loop fuel' escapeHTML (string_drop size src)
        else if (c =? 0x2028) || (c =? 0x2029) then
          String backslash (String "u" (String "2" (String "0" (String "2"
            (String (hex (Z.land c 0xF)) "")))))
            +:+ appendString_loop fuel' escapeHTML (string_drop size src)
        else
          string_take size src
            +:+ appendString_loop fuel' escapeHTML (string_drop size src)
    end
  end.

Definition appendString (escapeHTML : bool) (src : string) : string :=
  String quote (appendString_loop (String.length src) escapeHTML src)
    +:+ String quote "".

(** Keys in increasing order, as [Marshal] sorts the keys of a map. *)
Fixpoint insert_sorted (kv : string * string) (l : list (string * string))
  : list (string * string) :=
  match l with
  | [] => [kv]
  | kv' :: l' =>
    if String.leb (fst kv) (fst kv') then kv :: l
    else kv' :: insert_sorted kv l'
  end.

Definition sorted_entries (m : gmap string string) : list (string * string) :=
  foldr insert_sorted [] (map_to_list m).

Definition encode_member (escapeHTML : bool) (kv : string * string) : string :=
  appendString escapeHTML (fst kv) +:+ ":" +:+ appendString escapeHTML (snd kv).

Fixpoint join_members (l : list string) : string :=
  match l with
  | [] => ""
  | [x] => x
  | x :: l' => x +:+ "," +:+ join_members l'
  end.

Definition Marshal (escapeHTML : bool) (m : gmap string string) : string :=
  "{" +:+ join_members (map (encode_member escapeHTML) (sorted_entries m)) +:+ "}".

(** *** Reading a record back

    A reader for the lines [Marshal] writes: one object whose members are
    strings, no insignificant white space, escapes of the basic plane
    outside the surrogate range. *)

Definition chr (n : Z) : ascii := ascii_of_N (Z.to_N n).

Definition hexval (c : ascii) : option Z :=
  let b := byte c in
  if (0x30 <=? b) && (b <=? 0x39) then Some (b - 0x30)
  else if (0x61 <=? b) && (b <=? 0x66) then Some (b - 0x61 + 10)
  else if (0x41 <=? b) && (b <=? 0x46) then Some (b - 0x41 + 10)
  else None.

Definition hex4 (h1 h2 h3 h4 : ascii) : option Z :=
  match hexval h1, hexval h2, hexval h3, hexval h4 with
  | Some a, Some b, Some c, Some d => Some (((a * 16 + b) * 16 + c) * 16 + d)
  | _, _, _, _ => None
  end.

(** The UTF-8 encoding of a rune below 0x10000. *)
Definition EncodeRune (r : Z) : string :=
  if r <? 0x80 then String (chr r) ""
  else if r <? 0x800 then
    String (chr (Z.lor 0xC0 (Z.shiftr r 6)))
      (String (chr (Z.lor 0x80 (Z.land r 0x3F))) "")
  else
    String (chr (Z.lor 0xE0 (Z.shiftr r 12)))
      (String (chr (Z.lor 0x80 (Z.land (Z.shiftr r 6) 0x3F)))
         (String (chr (Z.lor 0x80 (Z.land r 0x3F))) "")).

(** The character a two-byte escape stands for. *)
Definition simple_escape (e : ascii) : option ascii :=
  if Ascii.eqb e quote then Some quote
  else if Ascii.eqb e backslash then Some backslash
  else if Ascii.eqb e "/" then Some "/"%char
  else if Ascii.eqb e "b" then Some "008"%char
  else if Ascii.eqb e "f" then Some "012"%char
  else if Ascii.eqb e "n" then Some "010"%char
  else if Ascii.eqb e "r" then Some "013"%char
  else if Ascii.eqb e "t" then Some "009"%char
  else None.

Definition prepend (p : string) (r : option (string * string))
  : option (string * string) :=
  match r with
  | Some (v, rest) => Some (p +:+ v, rest)
  | None => None
  end.

(** The string literal whose opening quote was just read: its value and
    what follows its closing quote. *)
Fixpoint unquote (s : string) : option (string * string) :=
  match s with
  | EmptyString => None
  | String c r =>
    if Ascii.eqb c quote then Some ("", r)
    else if Ascii.eqb c backslash then
      match r with
      | EmptyString => None
      | String e r1 =>
        match simple_escape e with
        | Some d => prepend (String d "") (unquote r1)
        | None =>
          if Ascii.eqb e "u" then
            match r1 with
            | String h1 (String h2 (String h3 (String h4 r2))) =>
              match hex4 h1 h2 h3 h4 with
              | Some cp =>
                if (0xD800 <=? cp) && (cp <=? 0xDFFF) then None
                else prepend (EncodeRune cp) (unquote r2)
              | None => None
              end
            | _ => None
            end
          else None
        end
      end
    else if byte c <? 0x20 then None
    else prepend (String c "") (unquote r)
  end.

(** One member, [key:value] with both sides string literals. *)
Definition member (s : string) : option ((string * string) * string) :=
  match s with
  | String q r =>
    if Ascii.eqb q quote then
      match unquote r with
      | Some (k, String c (String q' r')) =>
        if Ascii.eqb c ":" && Ascii.eqb q' quote then
          match unquote r' with
          | Some (v, rest) => Some ((k, v), rest)
          | None => None
          end
        else None
      | _ => None
      end
    else None
  | EmptyString => None
  end.

(** Members up to the closing brace; [fuel] bounds their number. *)
Fixpoint members (fuel : nat) (s : string)
  : option (list (string * string) * string) :=
  match fuel with
  | O => None
  | S fuel' =>
    match member s with
    | Some (kv, String c rest) =>
      if Ascii.eqb c "," then
        match members fuel' rest with
        | Some (l, rest') => Some (kv :: l, rest')
        | None => None
        end
      else if Ascii.eqb c "}" then Some ([kv], rest)
      else None
    | _ => None
    end
  end.

(** A whole line: the object, then the newline, then nothing. *)
Definition Unmarshal_line (s : string) : option (list (string * string)) :=
  match s with
  | String c r =>
    if Ascii.eqb c "{" then
      match r with
      | String c' r' =>
        if Ascii.eqb c' "}" then (if String.eqb r' nl then Some [] else None)
        else
          match members (String.length r) r with
          | Some (l, rest) => if String.eqb rest nl then Some l else None
          | None => None
          end
      | EmptyString => None
      end
    else None
  | EmptyString => None
  end.

(** What a reader gets for a string [appendString] wrote: the string
    itself, but for U+FFFD in place of every byte that is not part of a
    well-formed encoding. *)
Fixpoint readback_loop (fuel : nat) (src : string) : string :=
  match fuel with
  | O => ""
  | S fuel' =>
    match src with
    | EmptyString => ""
    | String b rest =>
      if byte b <? 0x80 then String b (readback_loop fuel' rest)
      else
        let '(c, size) := DecodeRuneInString src in
        if (c =? RuneError) && Nat.eqb size 1 then
          EncodeRune RuneError +:+ readback_loop fuel' (string_drop size src)
        else if (c =? 0x2028) || (c =? 0x2029) then
          EncodeRune c +:+ readback_loop fuel' (string_drop size src)
        else
          string_take size src +:+ readback_loop fuel' (string_drop size src)
    end
  end.

(** A byte of a multi-byte encoding. *)
Definition high (c : ascii) : bool := 0x80 <=? byte c.

Definition readback (src : string) : string :=
  readback_loop (String.length src) src.

Definition readback_member (kv : string * string) : string * string :=
  (readback (fst kv), readback (snd kv)).

End json.

(** ** System calls and library calls on the world *)


(** [os.OpenFile(name, O_APPEND|O_CREATE|O_WRONLY, 0666)]. *)
Definition os_OpenFile (rt : Runtime) (name : string) (w : World)
  : (File + error) * World :=
  if can_open rt name then
    let f : File := length (files w) in
    let d := match disk w !! name with
             | Some _ => disk w
             | None => <[name := []]> (disk w)
             end in
    (inl f,
     emit (EvOpenFile name (inl f))
       (with_disk d
          (with_files (files w ++ [{| f_name := name; f_closed := false |}]) w)))
  else
    (inr (ErrOpen name), emit (EvOpenFile name (inr (ErrOpen name))) w).

(** [File.Close] of package os: an error when the file was closed before. *)
Definition File_Close (f : File) (w : World) : option error * World :=
  match files w !! f with
  | Some e =>
    if f_closed e then
      (Some (ErrClosed f), emit (EvClose f (Some (ErrClosed f))) w)
    else
      (None,
       emit (EvClose f None)
         (with_files (<[f := {| f_name := f_name e; f_closed := true |}]> (files w)) w))
  | None => (Some ErrInvalid, emit (EvClose f (Some ErrInvalid)) w)
  end.

(** [File.Write] of package os of one chunk, appended to the file ([O_APPEND]). *)
Definition File_Write (f : File) (data : string) (w : World) : option error * World :=
  match files w !! f with
  | Some e =>
    if f_closed e then
      (Some (ErrClosed f), emit (EvWrite f data (Some (ErrClosed f))) w)
    else
      (None,
       emit (EvWrite f data None)
         (with_disk (<[f_name e := file_content w (f_name e) ++ [data]]> (disk w)) w))
  | None => (Some ErrInvalid, emit (EvWrite f data (Some ErrInvalid)) w)
  end.

(** [fmt.Fprintln(f, line)]: the operand and a newline, in one write. *)
Definition fmt_Fprintln (f : File) (line : string) (w : World) : option error * World :=
  File_Write f (line +:+ nl) w.

(** [json.NewEncoder(f)], [SetEscapeHTML(escapeHTML)], [Encode(entry)]:
    the object and a newline, in one write. *)
Definition json_Encode (f : File) (escapeHTML : bool) (entry : gmap string string)
  (w : World) : option error * World :=
  File_Write f (json.Marshal escapeHTML entry +:+ nl) w.

(** [Println(msg)] of a log.Logger: prefix, header, operand, newline. *)
Definition log_Println (rt : Runtime) (lg : log_Logger) (msg : string) (w : World)
  : World :=
  with_console
    (console w ++
       [(lg_out lg, lg_prefix lg +:+ log_header rt (lg_flag lg) (now w) +:+ msg +:+ nl)])
    w.

(** [color.CyanString] and its siblings read the global [color.NoColor]. *)
Definition colorString (rt : Runtime) (c : Color) (s : string) (w : World) : string :=
  if color_NoColor w then s else color_wrap rt c s.

Definition os_Getenv (key : string) (w : World) : string :=
  default "" (environ w !! key).

(** ** The logger *)

Module Logger.

(** [type Logger struct], without [mu]; a nil pointer is [None]. *)
Record t : Type := {
  infoLogger : option log_Logger;
  errorLogger : option log_Logger;
  debugLogger : option log_Logger;
  warningLogger : option log_Logger;
  fatalLogger : option log_Logger;
  logFile : option File;
  level : LogLevel;
  out : Writer;
  filePath : string;
  timeFormat : string;
  withCaller : bool;
  jsonMode : bool
}.

Definition set_logFile (f : option File) (l : t) : t :=
  {| infoLogger := infoLogger l; errorLogger := errorLogger l;
     debugLogger := debugLogger l; warningLogger := warningLogger l;
     fatalLogger := fatalLogger l; logFile := f; level := level l; out := out l;
     filePath := filePath l; timeFormat := timeFormat l;
     withCaller := withCaller l; jsonMode := jsonMode l |}.

Definition set_level (v : LogLevel) (l : t) : t :=
  {| infoLogger := infoLogger l; errorLogger := errorLogger l;
     debugLogger := debugLogger l; warningLogger := warningLogger l;
     fatalLogger := fatalLogger l; logFile := logFile l; level := v; out := out l;
     filePath := filePath l; timeFormat := timeFormat l;
     withCaller := withCaller l; jsonMode := jsonMode l |}.

Definition set_out (o : Writer) (l : t) : t :=
  {| infoLogger := infoLogger l; errorLogger := errorLogger l;
     debugLogger := debugLogger l; warningLogger := warningLogger l;
     fatalLogger := fatalLogger l; logFile := logFile l; level := level l; out := o;
     filePath := filePath l; timeFormat := timeFormat l;
     withCaller := withCaller l; jsonMode := jsonMode l |}.

Definition set_filePath (p : string) (l : t) : t :=
  {| infoLogger := infoLogger l; errorLogger := errorLogger l;
     debugLogger := debugLogger l; warningLogger := warningLogger l;
     fatalLogger := fatalLogger l; logFile := logFile l; level := level l;
     out := out l; filePath := p; timeFormat := timeFormat l;
     withCaller := withCaller l; jsonMode := jsonMode l |}.

Definition set_timeFormat (layout : string) (l : t) : t :=
  {| infoLogger := infoLogger l; errorLogger := errorLogger l;
     debugLogger := debugLogger l; warningLogger := warningLogger l;
     fatalLogger := fatalLogger l; logFile := logFile l; level := level l;
     out := out l; filePath := filePath l; timeFormat := layout;
     withCaller := withCaller l; jsonMode := jsonMode l |}.

Definition set_withCaller (b : bool) (l : t) : t :=
  {| infoLogger := infoLogger l; errorLogger := errorLogger l;
     debugLogger := debugLogger l; warningLogger := warningLogger l;
     fatalLogger := fatalLogger l; logFile := logFile l; level := level l;
     out := out l; filePath := filePath l; timeFormat := timeFormat l;
     withCaller := b; jsonMode := jsonMode l |}.

Definition set_jsonMode (b : bool) (l : t) : t :=
  {| infoLogger := infoLogger l; errorLogger := errorLogger l;
     debugLogger := debugLogger l; warningLogger := warningLogger l;
     fatalLogger := fatalLogger l; logFile := logFile l; level := level l;
     out := out l; filePath := filePath l; timeFormat := timeFormat l;
     withCaller := withCaller l; jsonMode := b |}.

(** The state a method runs in: its receiver and the world. *)
Record State : Type := {
  self : t;
  world : World
}.

(** A method body: it returns a value, or [None] when the process ended
    under it ([os.Exit] or a panic), and leaves a new state. *)
Definition M (A : Type) : Type := State -> option A * State.

Definition ret {A : Type} (a : A) : M A := fun s => (Some a, s).

Definition bind {A B : Type} (m : M A) (k : A -> M B) : M B :=
  fun s =>
    match m s with
    | (Some a, s') => k a s'
    | (None, s') => (None, s')
    end.

Notation "x <- m ;; k" := (bind m (fun x => k))
  (at level 100, m at next level, right associativity).
Notation "m ;;; k" := (bind m (fun _ => k))
  (at level 100, right associativity).

Definition get_self : M t := fun s => (Some (self s), s).

Definition modify_self (f : t -> t) : M unit :=
  fun s => (Some tt, {| self := f (self s); world := world s |}).

Definition call {A : Type} (f : World -> A * World) : M A :=
  fun s => let '(a, w) := f (world s) in (Some a, {| self := self s; world := w |}).

Definition effect (f : World -> World) : M unit :=
  fun s => (Some tt, {| self := self s; world := f (world s) |}).

Definition read {A : Type} (f : World -> A) : M A :=
  fun s => (Some (f (world s)), s).

Definition os_Exit (code : Z) : M unit :=
  fun s => (None, {| self := self s; world := emit (EvExit code) (world s) |}).

Definition panic {A : Type} (why : string) : M A :=
  fun s => (None, {| self := self s; world := emit (EvPanic why) (world s) |}).

Section Methods.

Variable rt : Runtime.

(** [fmt.Sprintf(msg, v...)] of a leveled method. *)
Definition Sprintf (msg : string) (v : list any) : M string :=
  effect (emit (EvSprintf msg v)) ;;; ret (fmt_Sprintf rt msg v).

(** [lg.Println(msg)] through a pointer that may be nil. *)
Definition Println (lg : option log_Logger) (msg : string) : M unit :=
  match lg with
  | Some g => effect (log_Println rt g msg)
  | None => panic "nil pointer dereference"
  end.

(** The [// caller info] block of [log]: the call site two frames up as
    [base:line], or the empty string. *)
Definition caller_info (l : t) : string :=
  if withCaller l then
    match runtime_Caller rt 2 with
    | Some (file, line) =>
      fmt_Sprintf rt "%s:%d" [AString (filepath_Base rt file); AInt line]
    | None => ""
    end
  else "".

Definition log (level : LogLevel) (msg : string) : M unit :=
  l <- get_self ;;
  (* level guard *)
  if level <? Logger.level l then ret tt else
  (if level =? DEBUG then Println (debugLogger l) msg
   else if level =? INFO then Println (infoLogger l) msg
   else if level =? WARNING then Println (warningLogger l) msg
   else if level =? ERROR then Println (errorLogger l) msg
   else if level =? FATAL then Println (fatalLogger l) msg
   else ret tt) ;;;
  match logFile l with
  | None => ret tt
  | Some f =>
    let levelStr :=
      if level =? DEBUG then "[DEBUG] "
      else if level =? INFO then "[INFO] "
      else if level =? WARNING then "[WARNING] "
      else if level =? ERROR then "[ERROR] "
      else if level =? FATAL then "[FATAL] "
      else "" in
    (* caller info *)
    let caller := caller_info l in
    nowStr <- read (fun w => time_Format rt (now w) (timeFormat l)) ;;
    if jsonMode l then
      match go_slice levelStr 1 (Z.of_nat (String.length levelStr) - 2) with
      | None => panic "slice bounds out of range"
      | Some lv =>
        let entry : gmap string string :=
          <["msg" := msg]> (<["level" := lv]> {["time" := nowStr]}) in
        let entry :=
          if String.eqb caller "" then entry else <["caller" := caller]> entry in
        call (json_Encode f false entry) ;;; ret tt
      end
    else
      let line := nowStr +:+ " " +:+ levelStr +:+ msg in
      let line :=
        if String.eqb caller "" then line else line +:+ " (" +:+ caller +:+ ")" in
      call (fmt_Fprintln f line) ;;; ret tt
  end.

Definition Debug (msg : string) (v : list any) : M unit :=
  l <- get_self ;;
  if Logger.level l >? DEBUG then ret tt else
  fullMsg <- (if (0 <? Z.of_nat (length v)) then Sprintf msg v else ret msg) ;;
  log DEBUG fullMsg.

Definition Info (msg : string) (v : list any) : M unit :=
  l <- get_self ;;
  if Logger.level l >? INFO then ret tt else
  fullMsg <- (if (0 <? Z.of_nat (length v)) then Sprintf msg v else ret msg) ;;
  log INFO fullMsg.

Definition Warning (msg : string) (v : list any) : M unit :=
  l <- get_self ;;
  if Logger.level l >? WARNING then ret tt else
  fullMsg <- (if (0 <? Z.of_nat (length v)) then Sprintf msg v else ret msg) ;;
  log WARNING fullMsg.

Definition Error (msg : string) (v : list any) : M unit :=
  l <- get_self ;;
  if Logger.level l >? ERROR then ret tt else
  fullMsg <- (if (0 <? Z.of_nat (length v)) then Sprintf msg v else ret msg) ;;
  log ERROR fullMsg.

Definition Fatal (msg : string) (v : list any) : M unit :=
  l <- get_self ;;
  if Logger.level l >? FATAL then ret tt else
  fullMsg <- (if (0 <? Z.of_nat (length v)) then Sprintf msg v else ret msg) ;;
  log FATAL fullMsg ;;;
  os_Exit 1.

Definition Close : M (option error) :=
  l <- get_self ;;
  match logFile l with
  | None => ret None
  | Some f => call (File_Close f)
  end.

(** Configuration helpers. *)

Definition SetLevel (level : LogLevel) : M unit := modify_self (set_level level).

Definition WithColors (enable : bool) : M unit := effect (with_NoColor (negb enable)).

Definition WithTimeFormat (layout : string) : M unit :=
  if negb (String.eqb layout "") then modify_self (set_timeFormat layout) else ret tt.

Definition WithCaller (enable : bool) : M unit := modify_self (set_withCaller enable).

Definition WithJSON : M unit := modify_self (set_jsonMode true).

(** File control. *)

Definition DisableFile : M unit :=
  l <- get_self ;;
  match logFile l with
  | Some f =>
    call (File_Close f) ;;;
    modify_self (set_logFile None)
  | None => ret tt
  end.

Definition EnableFile (path : string) : M (option error) :=
  l <- get_self ;;
  match logFile l with
  | Some f => call (File_Close f) ;;; ret tt
  | None => ret tt
  end ;;;
  r <- call (os_OpenFile rt path) ;;
  match r with
  | inr err => ret (Some err)
  | inl f =>
    modify_self (set_logFile (Some f)) ;;;
    ret None
  end.

End Methods.

End Logger.

(** ** Construction *)

(** [type Option func(l)], [l] a pointer to the logger being built
    (the closure may also touch package globals). *)
Definition Option : Type := Logger.M unit.

Definition WithFilePath (path : string) : Option :=
  Logger.modify_self (Logger.set_filePath path).

(** A nil [io.Writer] is [None]. *)
Definition WithWriter (w : option Writer) : Option :=
  match w with
  | Some w' => Logger.modify_self (Logger.set_out w')
  | None => Logger.ret tt
  end.

Definition WithLevel (level : LogLevel) : Option :=
  Logger.modify_self (Logger.set_level level).

Definition WithJSON : Option := Logger.modify_self (Logger.set_jsonMode true).

Definition WithTimeFormat (layout : string) : Option :=
  if negb (String.eqb layout "") then Logger.modify_self (Logger.set_timeFormat layout)
  else Logger.ret tt.

Definition WithCaller (enable : bool) : Option :=
  Logger.modify_self (Logger.set_withCaller enable).

Definition WithColors (enable : bool) : Option :=
  Logger.effect (with_NoColor (negb enable)).

(** [for _, o := range opts { o(l) }]. *)
Fixpoint apply_options (opts : list Option) : Logger.M unit :=
  match opts with
  | [] => Logger.ret tt
  | o :: opts' => Logger.bind o (fun _ => apply_options opts')
  end.

(** The zero [Logger] with the three defaults of the composite literal. *)
Definition defaults : Logger.t :=
  {| Logger.infoLogger := None; Logger.errorLogger := None;
     Logger.debugLogger := None; Logger.warningLogger := None;
     Logger.fatalLogger := None; Logger.logFile := None;
     Logger.level := DEBUG; Logger.out := Stdout; Logger.filePath := "";
     Logger.timeFormat := "2006-01-02 15:04:05";
     Logger.withCaller := false; Logger.jsonMode := false |}.

Definition init_console (rt : Runtime) (w : World) (l : Logger.t) : Logger.t :=
  let o := Logger.out l in
  {| Logger.infoLogger := Some (log_New o (colorString rt Cyan "[INFO] " w) log_Ltime);
     Logger.errorLogger := Some (log_New o (colorString rt Red "[ERROR] " w) log_Ltime);
     Logger.debugLogger := Some (log_New o (colorString rt Green "[DEBUG] " w) log_Ltime);
     Logger.warningLogger :=
       Some (log_New o (colorString rt Yellow "[WARNING] " w) log_Ltime);
     Logger.fatalLogger :=
       Some (log_New o (colorString rt Magenta "[FATAL] " w) log_Ltime);
     Logger.logFile := Logger.logFile l; Logger.level := Logger.level l;
     Logger.out := o; Logger.filePath := Logger.filePath l;
     Logger.timeFormat := Logger.timeFormat l;
     Logger.withCaller := Logger.withCaller l; Logger.jsonMode := Logger.jsonMode l |}.

(** The body of [NewLogger] after the literal, run on the new logger. *)
Definition construct (rt : Runtime) (opts : list Option) : Logger.M (option error) :=
  Logger.bind (apply_options opts) (fun _ =>
  (* auto color *)
  Logger.bind
    (Logger.effect (fun w =>
       if negb (String.eqb (os_Getenv "FORCE_COLOR" w) "") then with_NoColor false w
       else if negb (String.eqb (os_Getenv "NO_COLOR" w) "") then with_NoColor true w
       else w)) (fun _ =>
  (* console loggers on l.out *)
  Logger.bind (Logger.read (fun w => w)) (fun w =>
  Logger.bind (Logger.modify_self (init_console rt w)) (fun _ =>
  Logger.bind Logger.get_self (fun l =>
  if negb (String.eqb (Logger.filePath l) "") then
    Logger.bind (Logger.call (os_OpenFile rt (Logger.filePath l))) (fun r =>
    match r with
    | inr err => Logger.ret (Some err)
    | inl f =>
      Logger.bind (Logger.modify_self (Logger.set_logFile (Some f))) (fun _ =>
      Logger.ret None)
    end)
  else Logger.ret None))))).

(** [NewLogger(opts...)]: the logger or the error, and the world after;
    [None] if an option ended the process. *)
Definition NewLogger (rt : Runtime) (opts : list Option) (w : World)
  : option (Logger.t + error) * World :=
  match construct rt opts {| Logger.self := defaults; Logger.world := w |} with
  | (Some None, s) => (Some (inl (Logger.self s)), Logger.world s)
  | (Some (Some err), s) => (Some (inr err), Logger.world s)
  | (None, s) => (None, Logger.world s)
  end.

(** ** Sequences of calls on one logger *)

Inductive Call : Type :=
| CDebug (msg : string) (v : list any)
| CInfo (msg : string) (v : list any)
| CWarning (msg : string) (v : list any)
| CError (msg : string) (v : list any)
| CFatal (msg : string) (v : list any)
| CClose
| CSetLevel (level : LogLevel)
| CWithColors (enable : bool)
| CWithTimeFormat (layout : string)
| CWithCaller (enable : bool)
| CWithJSON
| CDisableFile
| CEnableFile (path : string).

Definition do_call (rt : Runtime) (c : Call) : Logger.M unit :=
  match c with
  | CDebug msg v => Logger.Debug rt msg v
  | CInfo msg v => Logger.Info rt msg v
  | CWarning msg v => Logger.Warning rt msg v
  | CError msg v => Logger.Error rt msg v
  | CFatal msg v => Logger.Fatal rt msg v
  | CClose => Logger.bind Logger.Close (fun _ => Logger.ret tt)
  | CSetLevel level => Logger.SetLevel level
  | CWithColors enable => Logger.WithColors enable
  | CWithTimeFormat layout => Logger.WithTimeFormat layout
  | CWithCaller enable => Logger.WithCaller enable
  | CWithJSON => Logger.WithJSON
  | CDisableFile => Logger.DisableFile
  | CEnableFile path => Logger.bind (Logger.EnableFile rt path) (fun _ => Logger.ret tt)
  end.

(** The calls in order; a call that ends the process ends the run. *)
Fixpoint do_calls (rt : Runtime) (cs : list Call) : Logger.M unit :=
  match cs with
  | [] => Logger.ret tt
  | c :: cs' => Logger.bind (do_call rt c) (fun _ => do_calls rt cs')
  end.

(** The leveled methods with the severity each is fixed to, the console
    logger each prints through, and the name of the level. *)
Definition leveled (rt : Runtime)
  : list (LogLevel * (Logger.t -> option log_Logger) * string
          * (string -> list any -> Logger.M unit)) :=
  [ (DEBUG, Logger.debugLogger, "DEBUG", Logger.Debug rt);
    (INFO, Logger.infoLogger, "INFO", Logger.Info rt);
    (WARNING, Logger.warningLogger, "WARNING", Logger.Warning rt);
    (ERROR, Logger.errorLogger, "ERROR", Logger.Error rt);
    (FATAL, Logger.fatalLogger, "FATAL", Logger.Fatal rt) ].

(** ** A runtime to run the model on *)

Module Example.

Definition render (a : any) : string :=
  match a with
  | AString s => s
  | AInt n => pretty n
  | ABool true => "true"
  | ABool false => "false"
  end.

(** Enough of [fmt.Sprintf] for the verbs the examples use: each verb
    takes the next operand, [%%] is a percent sign. *)
Fixpoint Sprintf (format : string) (args : list any) : string :=
  match format with
  | String "%" (String c rest) =>
    if Ascii.eqb c "%" then String "%" (Sprintf rest args)
    else
      match args with
      | a :: args' => render a +:+ Sprintf rest args'
      | [] => "%!" +:+ String c "(MISSING)" +:+ Sprintf rest []
      end
  | String c rest => String c (Sprintf rest args)
  | EmptyString => EmptyString
  end.

(** The last element of a slash-separated path. *)
Fixpoint Base_from (acc path : string) : string :=
  match path with
  | EmptyString => acc
  | String c rest =>
    if Ascii.eqb c "/" then Base_from EmptyString rest
    else Base_from (acc +:+ String c EmptyString) rest
  end.

Definition esc : string := String "027"%char "[".

Definition rt : Runtime :=
  {| fmt_Sprintf := Sprintf;
     time_Format := fun t layout => layout +:+ "@" +:+ pretty t;
     log_header := fun flag t => if flag =? log_Ltime then "12:00:00 " else "";
     runtime_Caller := fun skip =>
       if Nat.eqb skip 2 then Some ("/srv/app/main.go", 42) else None;
     filepath_Base := Base_from EmptyString;
     color_wrap := fun c s =>
       esc +:+ match c with
               | Cyan => "36" | Red => "31" | Green => "32"
               | Yellow => "33" | Magenta => "35"
               end +:+ "m" +:+ s +:+ esc +:+ "0m";
     can_open := fun name => negb (String.eqb name "")
                             && negb (String.prefix "/nonexistent/" name) |}.

(** A fresh process: nothing opened, written or printed yet. *)
Definition boot : World :=
  {| files := []; disk := ∅; console := []; environ := ∅;
     color_NoColor := true; now := 1700000000; trace := [] |}.

(** The state after [NewLogger(opts...)] succeeded on [boot]. *)
Definition started (opts : list Option) : Logger.State :=
  match NewLogger rt opts boot with
  | (Some (inl l), w) => {| Logger.self := l; Logger.world := w |}
  | (_, w) => {| Logger.self := defaults; Logger.world := w |}
  end.

(** The entry of [Info] in the table of leveled methods, and the console
    logger [NewLogger] builds for it when colours are off. *)
Definition info
  : LogLevel * (Logger.t -> option log_Logger) * string
    * (string -> list any -> Logger.M unit) :=
  (INFO, Logger.infoLogger, "INFO", Logger.Info rt).

Definition info_logger : log_Logger := log_New Stdout "[INFO] " log_Ltime.

(** Three loggers: plain lines with caller, structured records, console only. *)
Definition plain : Logger.State :=
  started [WithFilePath "app.log"; WithLevel INFO; WithCaller true].

Definition structured : Logger.State :=
  started [WithFilePath "app.log"; WithJSON].

Definition console_only : Logger.State := started [WithLevel WARNING].

End Example.

(** ** Vocabulary of the statements *)

(** The fields of the struct, to say which ones a method leaves alone. *)
Inductive Field : Type :=
| FInfoLogger | FErrorLogger | FDebugLogger | FWarningLogger | FFatalLogger
| FLogFile | FLevel | FOut | FFilePath | FTimeFormat | FWithCaller | FJsonMode.

Definition field_eq (fld : Field) (l l' : Logger.t) : Prop :=
  match fld with
  | FInfoLogger => Logger.infoLogger l = Logger.infoLogger l'
  | FErrorLogger => Logger.errorLogger l = Logger.errorLogger l'
  | FDebugLogger => Logger.debugLogger l = Logger.debugLogger l'
  | FWarningLogger => Logger.warningLogger l = Logger.warningLogger l'
  | FFatalLogger => Logger.fatalLogger l = Logger.fatalLogger l'
  | FLogFile => Logger.logFile l = Logger.logFile l'
  | FLevel => Logger.level l = Logger.level l'
  | FOut => Logger.out l = Logger.out l'
  | FFilePath => Logger.filePath l = Logger.filePath l'
  | FTimeFormat => Logger.timeFormat l = Logger.timeFormat l'
  | FWithCaller => Logger.withCaller l = Logger.withCaller l'
  | FJsonMode => Logger.jsonMode l = Logger.jsonMode l'
  end.

(** The file sink is open: [logFile] refers to a file that is not closed. *)
Definition sink_open (s : Logger.State) : bool :=
  match Logger.logFile (Logger.self s) with
  | Some f => is_open (Logger.world s) f
  | None => false
  end.

(** Every open file of the process is the one [logFile] refers to. *)
Definition owns_open_files (s : Logger.State) : Prop :=
  forall f, In f (open_files (Logger.world s)) ->
            Logger.logFile (Logger.self s) = Some f.

(** The same, on [is_open]. *)
Definition sink_inv (s : Logger.State) : Prop :=
  forall f, is_open (Logger.world s) f = true ->
            Logger.logFile (Logger.self s) = Some f.

(** The options the package exports, as data. *)
Inductive Setting : Type :=
| SFilePath (path : string)
| SWriter (w : option Writer)
| SLevel (level : LogLevel)
| SJSON
| STimeFormat (layout : string)
| SCaller (enable : bool)
| SColors (enable : bool).

Definition option_of (x : Setting) : Option :=
  match x with
  | SFilePath path => WithFilePath path
  | SWriter w => WithWriter w
  | SLevel level => WithLevel level
  | SJSON => WithJSON
  | STimeFormat layout => WithTimeFormat layout
  | SCaller enable => WithCaller enable
  | SColors enable => WithColors enable
  end.

(** A computation that opens and closes no file and keeps [logFile]. *)
Definition keeps_sink {A : Type} (m : Logger.M A) : Prop :=
  forall s,
    files (Logger.world (snd (m s))) = files (Logger.world s)
    /\ Logger.logFile (Logger.self (snd (m s))) = Logger.logFile (Logger.self s).

(** The five console loggers are set, as [NewLogger] leaves them. *)
Definition console_ready (l : Logger.t) : bool :=
  is_Some_b (Logger.infoLogger l) && is_Some_b (Logger.errorLogger l)
  && is_Some_b (Logger.debugLogger l) && is_Some_b (Logger.warningLogger l)
  && is_Some_b (Logger.fatalLogger l).

(** A computation that leaves its receiver as it is. *)
Definition keeps_self {A : Type} (m : Logger.M A) : Prop :=
  forall s, Logger.self (snd (m s)) = Logger.self s.

(** The field an option assigns, if any: [sets_field fld x] holds when the
    option [x] assigns [fld]. *)
Definition sets_field (fld : Field) (x : Setting) : bool :=
  match x, fld with
  | SFilePath _, FFilePath => true
  | SWriter (Some _), FOut => true
  | SLevel _, FLevel => true
  | SJSON, FJsonMode => true
  | STimeFormat layout, FTimeFormat => negb (String.eqb layout "")
  | SCaller _, FWithCaller => true
  | _, _ => false
  end.

(** The fields the options are about. *)
Definition is_config (fld : Field) : bool :=
  match fld with
  | FLevel | FOut | FFilePath | FTimeFormat | FWithCaller | FJsonMode => true
  | _ => false
  end.

(** What a list of options leaves in three fields, the last option of
    each kind deciding: the file path, the console destination (a nil
    writer does not count) and the global [color.NoColor]. *)
Fixpoint final_path (ss : list Setting) (p : string) : string :=
  match ss with
  | [] => p
  | SFilePath q :: ss' => final_path ss' q
  | _ :: ss' => final_path ss' p
  end.

Fixpoint final_out (ss : list Setting) (o : Writer) : Writer :=
  match ss with
  | [] => o
  | SWriter (Some o') :: ss' => final_out ss' o'
  | _ :: ss' => final_out ss' o
  end.

Fixpoint final_NoColor (ss : list Setting) (b : bool) : bool :=
  match ss with
  | [] => b
  | SColors enable :: ss' => final_NoColor ss' (negb enable)
  | _ :: ss' => final_NoColor ss' b
  end.

(** The two environment variables over a value of [color.NoColor]. *)
Definition env_NoColor (w : World) (b : bool) : bool :=
  if negb (String.eqb (os_Getenv "FORCE_COLOR" w) "") then false
  else if negb (String.eqb (os_Getenv "NO_COLOR" w) "") then true
  else b.

(** The console logger of a level, as [NewLogger] builds it. *)
Definition console_logger (rt : Runtime) (o : Writer) (noColor : bool)
  (c : Color) (tag : string) : log_Logger :=
  log_New o (if noColor then tag else color_wrap rt c tag) log_Ltime.

(** The calls that log the items of a list through [Info], in order. *)
Definition info_calls (items : list (string * list any)) : list Call :=
  map (fun it => CInfo (fst it) (snd it)) items.

(** The state with another value of [color.NoColor], and a computation
    that neither reads nor assigns it. *)
Definition recolor (b : bool) (s : Logger.State) : Logger.State :=
  {| Logger.self := Logger.self s;
     Logger.world := with_NoColor b (Logger.world s) |}.

Definition color_blind {A : Type} (m : Logger.M A) : Prop :=
  forall b s, m (recolor b s) = (fst (m s), recolor b (snd (m s))).

Definition is_Sprintf (e : Event) : bool :=
  match e with
  | EvSprintf _ _ => true
  | _ => false
  end.

(** The state with one more event in its trace. *)
Definition noting (e : Event) (s : Logger.State) : Logger.State :=
  {| Logger.self := Logger.self s; Logger.world := emit e (Logger.world s) |}.

(** The plain line the specification describes:
    [<formatted-time> [<LEVEL>] <message>], then [ (<caller>)] when the
    caller is not empty. *)
Definition expected_plain_line (rt : Runtime) (l : Logger.t) (w : World)
  (name msg : string) : string :=
  time_Format rt (now w) (Logger.timeFormat l) +:+ " [" +:+ name +:+ "] " +:+ msg
  +:+ (if String.eqb (Logger.caller_info rt l) "" then ""
       else " (" +:+ Logger.caller_info rt l +:+ ")").

(** The members of the structured record the specification describes. *)
Definition expected_entry (rt : Runtime) (l : Logger.t) (w : World)
  (name msg : string) : gmap string string :=
  let entry : gmap string string :=
    <["msg" := msg]>
      (<["level" := name]>
         {["time" := time_Format rt (now w) (Logger.timeFormat l)]}) in
  if String.eqb (Logger.caller_info rt l) "" then entry
  else <["caller" := Logger.caller_info rt l]> entry.

(** What one passing call hands to the file, in either mode. *)
Definition file_record (rt : Runtime) (l : Logger.t) (w : World)
  (name msg : string) : string :=
  if Logger.jsonMode l
  then json.Marshal false (expected_entry rt l w name msg) +:+ nl
  else expected_plain_line rt l w name msg +:+ nl.

(** The message of a call: interpolated when there are operands. *)
Definition full_message (rt : Runtime) (msg : string) (v : list any) : string :=
  match v with
  | [] => msg
  | _ :: _ => fmt_Sprintf rt msg v
  end.

(** The world once the message is formatted. *)
Definition formatted (msg : string) (v : list any) (w : World) : World :=
  match v with
  | [] => w
  | _ :: _ => emit (EvSprintf msg v) w
  end.

(** The world after the two emissions of a passing call. *)
Definition emitted (rt : Runtime) (g : log_Logger) (name msg : string)
  (l : Logger.t) (w : World) : World :=
  match Logger.logFile l with
  | Some f => snd (File_Write f (file_record rt l w name msg) (log_Println rt g msg w))
  | None => log_Println rt g msg w
  end.


(** * Properties *)

#[local] Arguments String.append !s1 s2 : simpl nomatch.

Ltac unfold_methods :=
  unfold Logger.Debug, Logger.Info, Logger.Warning, Logger.Error, Logger.Fatal,
    Logger.Close, Logger.SetLevel, Logger.WithColors, Logger.WithTimeFormat,
    Logger.WithCaller, Logger.WithJSON, Logger.DisableFile, Logger.EnableFile,
    Logger.log, Logger.Sprintf, Logger.Println,
    WithFilePath, WithWriter, WithLevel, WithJSON, WithTimeFormat, WithCaller,
    WithColors.

Ltac unfold_monad :=
  unfold Logger.bind, Logger.ret, Logger.get_self, Logger.modify_self,
    Logger.call, Logger.effect, Logger.read, Logger.os_Exit, Logger.panic.

Ltac step_methods := unfold_methods; unfold_monad; simpl.

Lemma gtb_of_lt (a b : Z) : b < a -> (a >? b) = true.
Proof. intros H. rewrite Z.gtb_ltb. apply Z.ltb_lt. exact H. Qed.

Lemma gtb_of_le (a b : Z) : a <= b -> (a >? b) = false.
Proof. intros H. rewrite Z.gtb_ltb. apply Z.ltb_ge. exact H. Qed.

Lemma ltb_of_le (a b : Z) : b <= a -> (a <? b) = false.
Proof. intros H. apply Z.ltb_ge. exact H. Qed.

Section Gate.

Variable rt : Runtime.

(** C1. A leveled method whose severity is strictly below the threshold
    returns at once and changes nothing: the receiver and the world
    (console, files, disk and the trace of [Sprintf] and system calls) are
    the ones it was called in. *)
Theorem below_threshold_no_effect :
  forall sev cl name m, In (sev, cl, name, m) (leveled rt) ->
  forall msg v s, sev < Logger.level (Logger.self s) ->
  m msg v s = (Some tt, s).
Proof.
  intros sev cl name m Hin msg v s Hlt.
  simpl in Hin.
  repeat (destruct Hin as [Hin | Hin];
          [ inversion Hin; subst; clear Hin; step_methods;
            rewrite gtb_of_lt by exact Hlt; reflexivity | ]).
  contradiction.
Qed.

(** C9. The threshold is any integer.  Once it is above [FATAL], whether
    set by [SetLevel] or by the option [WithLevel], [Fatal] returns to its
    caller and leaves console, files and trace as they were: nothing is
    printed or written and [os.Exit] is not reached. *)
Theorem Fatal_above_FATAL_returns :
  forall lv msg v s, FATAL < lv ->
  (Logger.level (Logger.self s) = lv -> Logger.Fatal rt msg v s = (Some tt, s))
  /\ Logger.bind (Logger.SetLevel lv) (fun _ => Logger.Fatal rt msg v) s
     = (Some tt, {| Logger.self := Logger.set_level lv (Logger.self s);
                    Logger.world := Logger.world s |})
  /\ (exists l w,
        NewLogger rt [WithLevel lv] (Logger.world s) = (Some (inl l), w)
        /\ Logger.level l = lv
        /\ Logger.Fatal rt msg v {| Logger.self := l; Logger.world := w |}
           = (Some tt, {| Logger.self := l; Logger.world := w |})).
Proof.
  intros lv msg v s Hlt. split; [ | split ].
  - intros Hlv. step_methods. rewrite Hlv.
    rewrite gtb_of_lt by exact Hlt. reflexivity.
  - step_methods. rewrite gtb_of_lt by exact Hlt. reflexivity.
  - unfold NewLogger, construct. step_methods.
    eexists. eexists. split; [ reflexivity | ]. split; [ reflexivity | ].
    simpl. rewrite gtb_of_lt by exact Hlt. reflexivity.
Qed.

End Gate.

(** C10. [SetLevel], [WithTimeFormat], [WithCaller] and [WithJSON] return
    normally, leave the world alone and change no field of the logger but
    their own; [WithTimeFormat] with the empty layout changes nothing. *)
Theorem mutators_change_own_field_only :
  forall (s : Logger.State) (fld : Field),
  (forall lv,
     let r := Logger.SetLevel lv s in
     fst r = Some tt
     /\ Logger.world (snd r) = Logger.world s
     /\ Logger.level (Logger.self (snd r)) = lv
     /\ (fld <> FLevel -> field_eq fld (Logger.self (snd r)) (Logger.self s)))
  /\ (forall layout,
     let r := Logger.WithTimeFormat layout s in
     fst r = Some tt
     /\ Logger.world (snd r) = Logger.world s
     /\ Logger.timeFormat (Logger.self (snd r))
        = (if String.eqb layout "" then Logger.timeFormat (Logger.self s)
           else layout)
     /\ (fld <> FTimeFormat ->
         field_eq fld (Logger.self (snd r)) (Logger.self s)))
  /\ (forall enable,
     let r := Logger.WithCaller enable s in
     fst r = Some tt
     /\ Logger.world (snd r) = Logger.world s
     /\ Logger.withCaller (Logger.self (snd r)) = enable
     /\ (fld <> FWithCaller ->
         field_eq fld (Logger.self (snd r)) (Logger.self s)))
  /\ (let r := Logger.WithJSON s in
     fst r = Some tt
     /\ Logger.world (snd r) = Logger.world s
     /\ Logger.jsonMode (Logger.self (snd r)) = true
     /\ (fld <> FJsonMode -> field_eq fld (Logger.self (snd r)) (Logger.self s)))
  /\ Logger.WithTimeFormat "" s = (Some tt, s).
Proof.
  intros s fld. repeat split; try reflexivity.
  - intros Hf. destruct fld; simpl; try reflexivity. contradiction.
  - step_methods. destruct (String.eqb layout ""); reflexivity.
  - step_methods. destruct (String.eqb layout ""); reflexivity.
  - step_methods. destruct (String.eqb layout ""); reflexivity.
  - intros Hf. step_methods.
    destruct (String.eqb layout ""); destruct fld; simpl; try reflexivity;
      contradiction.
  - intros Hf. destruct fld; simpl; try reflexivity. contradiction.
  - intros Hf. destruct fld; simpl; try reflexivity. contradiction.
Qed.

(** ** The write path *)

Lemma string_app_assoc (a b c : string) : (a +:+ b) +:+ c = a +:+ (b +:+ c).
Proof. induction a as [ | x a IH ]; simpl; [ reflexivity | now rewrite IH ]. Qed.

Lemma string_app_nil_r (a : string) : a +:+ "" = a.
Proof. induction a as [ | x a IH ]; simpl; [ reflexivity | now rewrite IH ]. Qed.

Section WritePath.

Variable rt : Runtime.

(** [log] on a call that passes the gate: one [Println], then one write
    when [logFile] is set. *)
Lemma log_passing sev cl name m :
  In (sev, cl, name, m) (leveled rt) ->
  forall msg s g,
  Logger.level (Logger.self s) <= sev ->
  cl (Logger.self s) = Some g ->
  Logger.log rt sev msg s
  = (Some tt,
     {| Logger.self := Logger.self s;
        Logger.world := emitted rt g name msg (Logger.self s) (Logger.world s) |}).
Proof.
  intros Hin msg s g Hle Hcl. simpl in Hin.
  repeat (destruct Hin as [Hin | Hin];
    [ inversion Hin; subst; clear Hin | ]); try contradiction.
  all: step_methods.
  all: rewrite ltb_of_le by exact Hle.
  all: rewrite Hcl; simpl.
  all: unfold emitted.
  all: destruct (Logger.logFile (Logger.self s)) as [f|]; [ | reflexivity ].
  all: unfold file_record, expected_plain_line, expected_entry.
  all: unfold json_Encode, fmt_Fprintln.
  all: destruct (Logger.jsonMode (Logger.self s)); simpl.
  all: destruct (String.eqb (Logger.caller_info rt (Logger.self s)) "");
    repeat (progress (rewrite ?string_app_assoc; simpl));
    rewrite ?string_app_nil_r.
  all: match goal with
       | |- context [File_Write ?f ?d ?w] => destruct (File_Write f d w)
       end; reflexivity.
Qed.

(** A leveled method on a call that passes the gate: the message is
    formatted, then [log] runs; [Fatal] then leaves the process. *)
Lemma leveled_passing sev cl name m :
  In (sev, cl, name, m) (leveled rt) ->
  forall msg v s g,
  Logger.level (Logger.self s) <= sev ->
  cl (Logger.self s) = Some g ->
  let w := emitted rt g name (full_message rt msg v) (Logger.self s)
             (formatted msg v (Logger.world s)) in
  m msg v s
  = (if sev =? FATAL then None else Some tt,
     {| Logger.self := Logger.self s;
        Logger.world := if sev =? FATAL then emit (EvExit 1) w else w |}).
Proof.
  intros Hin msg v s g Hle Hcl.
  pose proof (log_passing sev cl name m Hin) as Hlog.
  simpl in Hin.
  repeat (destruct Hin as [Hin | Hin];
    [ inversion Hin; subst; clear Hin | ]); try contradiction.
  all: unfold Logger.Debug, Logger.Info, Logger.Warning, Logger.Error, Logger.Fatal.
  all: unfold Logger.bind at 1; unfold Logger.get_self at 1.
  all: rewrite gtb_of_le by exact Hle.
  all: destruct v as [ | a v ]; simpl.
  all: unfold Logger.bind, Logger.Sprintf, Logger.effect, Logger.ret; simpl.
  all: rewrite (Hlog _ _ g) by (simpl; assumption); reflexivity.
Qed.

End WritePath.

(** What the two emissions do to each part of the world. *)

Lemma sink_open_inv (s : Logger.State) :
  sink_open s = true ->
  exists f e, Logger.logFile (Logger.self s) = Some f
              /\ files (Logger.world s) !! f = Some e /\ f_closed e = false.
Proof.
  unfold sink_open, is_open. intros H.
  destruct (Logger.logFile (Logger.self s)) as [f|]; [ | discriminate ].
  destruct (files (Logger.world s) !! f) as [e|] eqn:He; [ | discriminate ].
  exists f, e. destruct (f_closed e); [ discriminate | ].
  repeat split; [ exact He ].
Qed.

Section Emissions.

Variable rt : Runtime.

Lemma emitted_console g name msg l w :
  console (emitted rt g name msg l w)
  = console w
    ++ [(lg_out g, lg_prefix g +:+ log_header rt (lg_flag g) (now w) +:+ msg +:+ nl)].
Proof.
  unfold emitted. destruct (Logger.logFile l) as [f|]; [ | reflexivity ].
  unfold File_Write. simpl.
  destruct (files w !! f) as [e|]; [ destruct (f_closed e) | ]; reflexivity.
Qed.

Lemma emitted_disk_open g name msg l w f e :
  Logger.logFile l = Some f -> files w !! f = Some e -> f_closed e = false ->
  disk (emitted rt g name msg l w)
  = <[f_name e := file_content w (f_name e) ++ [file_record rt l w name msg]]> (disk w).
Proof.
  intros Hf He Hc. unfold emitted. rewrite Hf.
  unfold File_Write. simpl. rewrite He, Hc. reflexivity.
Qed.

Lemma emitted_disk_closed g name msg l w :
  sink_open {| Logger.self := l; Logger.world := w |} = false ->
  disk (emitted rt g name msg l w) = disk w.
Proof.
  unfold sink_open, is_open, emitted. simpl. intros H.
  destruct (Logger.logFile l) as [f|]; [ | reflexivity ].
  unfold File_Write. simpl.
  destruct (files w !! f) as [e|]; [ | reflexivity ].
  destruct (f_closed e); [ reflexivity | discriminate ].
Qed.

Lemma emitted_files g name msg l w :
  files (emitted rt g name msg l w) = files w.
Proof.
  unfold emitted. destruct (Logger.logFile l) as [f|]; [ | reflexivity ].
  unfold File_Write. simpl.
  destruct (files w !! f) as [e|]; [ destruct (f_closed e) | ]; reflexivity.
Qed.

Lemma emitted_Sprintf_trace g name msg l w :
  filter is_Sprintf (trace (emitted rt g name msg l w)) = filter is_Sprintf (trace w).
Proof.
  unfold emitted. destruct (Logger.logFile l) as [f|]; [ | reflexivity ].
  unfold File_Write. simpl.
  destruct (files w !! f) as [e|]; [ destruct (f_closed e) | ]; simpl;
    rewrite filter_app; simpl; apply app_nil_r.
Qed.

(** The world a passing call leaves, up to the exit event of [Fatal]. *)
Lemma leveled_passing_world sev cl name m :
  In (sev, cl, name, m) (leveled rt) ->
  forall msg v s g,
  Logger.level (Logger.self s) <= sev ->
  cl (Logger.self s) = Some g ->
  let w := emitted rt g name (full_message rt msg v) (Logger.self s)
             (formatted msg v (Logger.world s)) in
  let w' := Logger.world (snd (m msg v s)) in
  console w' = console w /\ disk w' = disk w /\ files w' = files w
  /\ filter is_Sprintf (trace w') = filter is_Sprintf (trace w)
  /\ Logger.self (snd (m msg v s)) = Logger.self s.
Proof.
  intros Hin msg v s g Hle Hcl. simpl.
  rewrite (leveled_passing rt sev cl name m Hin msg v s g Hle Hcl). simpl.
  destruct (sev =? FATAL); simpl; repeat split; try reflexivity.
  rewrite filter_app. simpl. apply app_nil_r.
Qed.

End Emissions.

Section PassingCalls.

Variable rt : Runtime.

Lemma formatted_parts msg v w :
  console (formatted msg v w) = console w /\ disk (formatted msg v w) = disk w
  /\ files (formatted msg v w) = files w /\ now (formatted msg v w) = now w
  /\ filter is_Sprintf (trace (formatted msg v w))
     = filter is_Sprintf (trace w)
       ++ match v with [] => [] | _ :: _ => [EvSprintf msg v] end.
Proof.
  destruct v; simpl; repeat split; try reflexivity.
  - symmetry. apply app_nil_r.
  - rewrite filter_app. reflexivity.
Qed.

(** C5. On a call that passes the gate the message is [Sprintf] of the
    template and the operands when there is at least one operand, and the
    template itself when there is none, whatever the template contains;
    [Sprintf] is called in the first case and only in it. *)
Theorem message_interpolated_iff_operands :
  forall sev cl name m, In (sev, cl, name, m) (leveled rt) ->
  forall msg v s g,
  Logger.level (Logger.self s) <= sev ->
  cl (Logger.self s) = Some g ->
  let w := Logger.world s in
  let w' := Logger.world (snd (m msg v s)) in
  console w'
  = console w
    ++ [(lg_out g,
         lg_prefix g +:+ log_header rt (lg_flag g) (now w)
         +:+ match v with
             | [] => msg
             | _ :: _ => fmt_Sprintf rt msg v
             end +:+ nl)]
  /\ filter is_Sprintf (trace w')
     = filter is_Sprintf (trace w)
       ++ match v with
          | [] => []
          | _ :: _ => [EvSprintf msg v]
          end.
Proof.
  intros sev cl name m Hin msg v s g Hle Hcl w w'.
  destruct (leveled_passing_world rt sev cl name m Hin msg v s g Hle Hcl)
    as (Hc & _ & _ & Ht & _).
  destruct (formatted_parts msg v w) as (Fc & _ & _ & Fn & Ft).
  fold w in Hc, Ht. fold w' in Hc, Ht.
  split.
  - rewrite Hc, emitted_console, Fc, Fn. reflexivity.
  - rewrite Ht, emitted_Sprintf_trace. exact Ft.
Qed.

(** C8. In plain mode a passing call with an open sink appends to the file
    one chunk: the formatted time, a space, the level in brackets, a space,
    the message, then the caller in parentheses after a space when the
    caller is not empty, then a newline. *)
Theorem plain_mode_file_line :
  forall sev cl name m, In (sev, cl, name, m) (leveled rt) ->
  forall msg v s g,
  Logger.level (Logger.self s) <= sev ->
  cl (Logger.self s) = Some g ->
  Logger.jsonMode (Logger.self s) = false ->
  sink_open s = true ->
  let w := Logger.world s in
  let w' := Logger.world (snd (m msg v s)) in
  let caller := Logger.caller_info rt (Logger.self s) in
  let line :=
    time_Format rt (now w) (Logger.timeFormat (Logger.self s))
    +:+ " [" +:+ name +:+ "] "
    +:+ match v with
        | [] => msg
        | _ :: _ => fmt_Sprintf rt msg v
        end
    +:+ (if String.eqb caller "" then "" else " (" +:+ caller +:+ ")") in
  exists f e,
    Logger.logFile (Logger.self s) = Some f /\ files w !! f = Some e
    /\ disk w' = <[f_name e := file_content w (f_name e) ++ [line +:+ nl]]> (disk w).
Proof.
  intros sev cl name m Hin msg v s g Hle Hcl Hj Hs w w' caller line.
  destruct (leveled_passing_world rt sev cl name m Hin msg v s g Hle Hcl)
    as (_ & Hd & _ & _ & _).
  destruct (formatted_parts msg v w) as (_ & Fd & Ff & Fn & _).
  fold w in Hd. fold w' in Hd.
  destruct (sink_open_inv s Hs) as (f & e & Hf & He & Hcl').
  exists f, e. split; [ exact Hf | ]. split; [ exact He | ].
  rewrite Hd.
  rewrite (emitted_disk_open rt g name _ _ _ f e Hf); [ | rewrite Ff; exact He | exact Hcl' ].
  unfold file_content, file_record, expected_plain_line. rewrite Fd, Fn, Hj.
  reflexivity.
Qed.

End PassingCalls.

(** ** The file sink *)

Lemma In_open_from (fs : list FileEntry) (i f : nat) :
  In f (open_from i fs)
  <-> (i <= f)%nat /\ exists e, fs !! (f - i)%nat = Some e /\ f_closed e = false.
Proof.
  revert i. induction fs as [ | e0 fs IH ]; intros i; simpl.
  - split; [ contradiction | ]. intros (_ & e & He & _). discriminate.
  - rewrite in_app_iff, IH. split.
    + intros [H | (Hle & e & He & Hc)].
      * destruct (f_closed e0) eqn:Hc0; simpl in H; [ contradiction | ].
        destruct H as [<- | []]. split; [ lia | ].
        exists e0. rewrite Nat.sub_diag. auto.
      * split; [ lia | ]. exists e. split; [ | exact Hc ].
        replace (f - i)%nat with (S (f - S i)) by lia. exact He.
    + intros (Hle & e & He & Hc).
      destruct (Nat.eq_dec f i) as [-> | Hne].
      * left. rewrite Nat.sub_diag in He. simpl in He.
        injection He as ->. rewrite Hc. left. reflexivity.
      * right. split; [ lia | ]. exists e. split; [ | exact Hc ].
        replace (f - i)%nat with (S (f - S i)) in He by lia. exact He.
Qed.

Lemma In_open_files (w : World) (f : File) :
  In f (open_files w) <-> is_open w f = true.
Proof.
  unfold open_files, is_open. rewrite In_open_from.
  replace (f - 0)%nat with f by lia. split.
  - intros (_ & e & -> & ->). reflexivity.
  - destruct (files w !! f) as [e|]; [ | discriminate ].
    intros H. split; [ lia | ]. exists e. split; [ reflexivity | ].
    destruct (f_closed e); [ discriminate | reflexivity ].
Qed.

Lemma NoDup_open_from (fs : list FileEntry) (i : nat) :
  List.NoDup (open_from i fs).
Proof.
  revert i. induction fs as [ | e fs IH ]; intros i; simpl.
  - constructor.
  - destruct (f_closed e); simpl; [ apply IH | ].
    constructor; [ | apply IH ].
    rewrite In_open_from. intros (H & _). lia.
Qed.

Lemma NoDup_all_same {A : Type} (l : list A) (a : A) :
  List.NoDup l -> (forall x, In x l -> x = a) -> (length l <= 1)%nat.
Proof.
  intros Hnd Hall. destruct l as [ | x [ | y l ] ]; simpl; try lia.
  inversion Hnd as [ | ? ? Hx _ ]; subst. exfalso. apply Hx.
  rewrite (Hall x), (Hall y); simpl; auto.
Qed.

Lemma NoDup_singleton_iff {A : Type} (l : list A) (a : A) :
  List.NoDup l -> (forall x, In x l <-> x = a) -> l = [a].
Proof.
  intros Hnd Hall.
  assert (Hlen : (length l <= 1)%nat)
    by (apply (NoDup_all_same l a Hnd); intros x Hx; apply Hall; exact Hx).
  destruct l as [ | x [ | y l ] ]; simpl in Hlen; try lia.
  - exfalso. apply (proj2 (Hall a)). reflexivity.
  - f_equal. apply Hall. left. reflexivity.
Qed.

Lemma open_files_nil (w : World) :
  (forall f, is_open w f = false) -> open_files w = [].
Proof.
  intros H. destruct (open_files w) as [ | f l ] eqn:E; [ reflexivity | ].
  assert (Hin : In f (open_files w)) by (rewrite E; left; reflexivity).
  apply In_open_files in Hin. rewrite H in Hin. discriminate.
Qed.

Lemma owns_open_files_iff (s : Logger.State) : owns_open_files s <-> sink_inv s.
Proof.
  unfold owns_open_files, sink_inv.
  split; intros H f Hf; apply H; apply In_open_files; exact Hf.
Qed.

Lemma sink_inv_at_most_one (s : Logger.State) :
  sink_inv s -> (length (open_files (Logger.world s)) <= 1)%nat.
Proof.
  intros H. destruct (Logger.logFile (Logger.self s)) as [f0|] eqn:E.
  - apply (NoDup_all_same _ f0); [ apply NoDup_open_from | ].
    intros f Hf. apply In_open_files in Hf. apply H in Hf. congruence.
  - rewrite open_files_nil; [ simpl; lia | ].
    intros f. destruct (is_open (Logger.world s) f) eqn:Hf; [ | reflexivity ].
    apply H in Hf. congruence.
Qed.

(** Closing marks one file closed and touches no other. *)
Lemma File_Close_is_open (f : File) (w : World) (f' : File) :
  is_open (snd (File_Close f w)) f' = is_open w f' && negb (Nat.eqb f f').
Proof.
  unfold File_Close, is_open.
  destruct (files w !! f) as [e|] eqn:He.
  - destruct (f_closed e) eqn:Hc; simpl.
    + destruct (Nat.eqb_spec f f') as [<- | Hne]; simpl.
      * rewrite He, Hc. reflexivity.
      * rewrite andb_true_r. reflexivity.
    + destruct (Nat.eqb_spec f f') as [<- | Hne]; simpl.
      * rewrite list_lookup_insert_eq by (eapply lookup_lt_Some; exact He).
        simpl. rewrite andb_false_r. reflexivity.
      * rewrite list_lookup_insert_ne by exact Hne.
        rewrite andb_true_r. reflexivity.
  - simpl. destruct (Nat.eqb_spec f f') as [<- | Hne]; simpl.
    + rewrite He. reflexivity.
    + rewrite andb_true_r. reflexivity.
Qed.

Lemma File_Close_length (f : File) (w : World) :
  length (files (snd (File_Close f w))) = length (files w).
Proof.
  unfold File_Close. destruct (files w !! f) as [e|]; [ | reflexivity ].
  destruct (f_closed e); simpl; [ reflexivity | apply length_insert ].
Qed.

Lemma File_Close_name (f : File) (w : World) (f' : File) :
  f_name <$> files (snd (File_Close f w)) !! f' = f_name <$> files w !! f'.
Proof.
  unfold File_Close. destruct (files w !! f) as [e|] eqn:He; [ | reflexivity ].
  destruct (f_closed e); simpl; [ reflexivity | ].
  destruct (Nat.eq_dec f f') as [<- | Hne].
  - rewrite list_lookup_insert_eq by (eapply lookup_lt_Some; exact He).
    rewrite He. reflexivity.
  - rewrite list_lookup_insert_ne by exact Hne. reflexivity.
Qed.

(** Logging and configuration leave the sink as it is. *)

Lemma keeps_ret {A : Type} (a : A) : keeps_sink (Logger.ret a).
Proof. intros s. split; reflexivity. Qed.

Lemma keeps_bind {A B : Type} (m : Logger.M A) (k : A -> Logger.M B) :
  keeps_sink m -> (forall a, keeps_sink (k a)) -> keeps_sink (Logger.bind m k).
Proof.
  intros Hm Hk s. unfold Logger.bind. specialize (Hm s).
  destruct (m s) as [[a|] s1]; simpl in *; [ | exact Hm ].
  destruct (Hk a s1) as [H1 H2]. destruct Hm as [H3 H4].
  split; congruence.
Qed.

Lemma keeps_get_self : keeps_sink Logger.get_self.
Proof. intros s. split; reflexivity. Qed.

Lemma keeps_read {A : Type} (f : World -> A) : keeps_sink (Logger.read f).
Proof. intros s. split; reflexivity. Qed.

Lemma keeps_effect (f : World -> World) :
  (forall w, files (f w) = files w) -> keeps_sink (Logger.effect f).
Proof. intros H s. split; [ apply H | reflexivity ]. Qed.

Lemma keeps_modify_self (f : Logger.t -> Logger.t) :
  (forall l, Logger.logFile (f l) = Logger.logFile l) ->
  keeps_sink (Logger.modify_self f).
Proof. intros H s. split; [ reflexivity | apply H ]. Qed.

Lemma keeps_os_Exit (code : Z) : keeps_sink (Logger.os_Exit code).
Proof. intros s. split; reflexivity. Qed.

Lemma keeps_panic {A : Type} (why : string) : keeps_sink (@Logger.panic A why).
Proof. intros s. split; reflexivity. Qed.

Lemma keeps_File_Write (f : File) (data : string) :
  keeps_sink (Logger.call (File_Write f data)).
Proof.
  intros s. unfold Logger.call, File_Write.
  destruct (files (Logger.world s) !! f) as [e|]; [ destruct (f_closed e) | ];
    split; reflexivity.
Qed.

Ltac keeps :=
  repeat first
    [ apply keeps_ret | apply keeps_get_self | apply keeps_read
    | apply keeps_os_Exit | apply keeps_panic | apply keeps_File_Write
    | apply keeps_effect; intros ?; reflexivity
    | apply keeps_modify_self; intros ?; reflexivity
    | apply keeps_bind; [ | intros ? ]
    | match goal with
      | |- keeps_sink (if ?c then _ else _) => destruct c
      | |- keeps_sink (match ?x with _ => _ end) => destruct x
      end ].

Section KeepsSink.

Variable rt : Runtime.

Lemma keeps_log (level : LogLevel) (msg : string) :
  keeps_sink (Logger.log rt level msg).
Proof.
  unfold Logger.log, Logger.Println, json_Encode, fmt_Fprintln. keeps.
Qed.

Lemma keeps_leveled sev cl name m :
  In (sev, cl, name, m) (leveled rt) -> forall msg v, keeps_sink (m msg v).
Proof.
  intros Hin msg v. simpl in Hin.
  repeat (destruct Hin as [Hin | Hin];
    [ inversion Hin; subst; clear Hin | ]); try contradiction.
  all: unfold Logger.Debug, Logger.Info, Logger.Warning, Logger.Error,
         Logger.Fatal, Logger.Sprintf.
  all: apply keeps_bind; [ apply keeps_get_self | intros l ].
  all: match goal with |- keeps_sink (if ?c then _ else _) => destruct c end;
         [ apply keeps_ret | ].
  all: apply keeps_bind; [ keeps | intros fullMsg ].
  all: try apply keeps_log.
  all: apply keeps_bind; [ apply keeps_log | intros ? ]; apply keeps_os_Exit.
Qed.

End KeepsSink.

Lemma keeps_sink_inv {A : Type} (m : Logger.M A) (s : Logger.State) :
  keeps_sink m -> sink_inv s -> sink_inv (snd (m s)).
Proof.
  intros Hk Hinv f. destruct (Hk s) as [Hf Hl].
  unfold is_open. rewrite Hf, Hl. apply Hinv.
Qed.

Lemma open_files_nil_inv (w : World) :
  open_files w = [] -> forall f, is_open w f = false.
Proof.
  intros H f. destruct (is_open w f) eqn:E; [ | reflexivity ].
  apply In_open_files in E. rewrite H in E. contradiction.
Qed.

Lemma sink_inv_none_open (s : Logger.State) :
  (forall f, is_open (Logger.world s) f = false) -> sink_inv s.
Proof. intros H f Hf. rewrite H in Hf. discriminate. Qed.

(** Under the invariant, closing [logFile] leaves no file open. *)
Lemma close_logFile_none_open (s : Logger.State) (f : File) :
  sink_inv s -> Logger.logFile (Logger.self s) = Some f ->
  forall f', is_open (snd (File_Close f (Logger.world s))) f' = false.
Proof.
  intros Hinv Hf f'. rewrite File_Close_is_open.
  destruct (is_open (Logger.world s) f') eqn:Ho; [ | reflexivity ].
  apply Hinv in Ho. rewrite Hf in Ho. injection Ho as ->.
  rewrite Nat.eqb_refl. reflexivity.
Qed.

Lemma no_logFile_none_open (s : Logger.State) :
  sink_inv s -> Logger.logFile (Logger.self s) = None ->
  forall f', is_open (Logger.world s) f' = false.
Proof.
  intros Hinv Hf f'. destruct (is_open (Logger.world s) f') eqn:Ho; [ | reflexivity ].
  apply Hinv in Ho. congruence.
Qed.

Lemma is_open_emit (e : Event) (w : World) (f : File) :
  is_open (emit e w) f = is_open w f.
Proof. reflexivity. Qed.

Section SinkLifeCycle.

Variable rt : Runtime.

Lemma os_OpenFile_ok (path : string) (w : World) :
  can_open rt path = true ->
  let r := os_OpenFile rt path w in
  fst r = inl (length (files w))
  /\ files (snd r) = files w ++ [{| f_name := path; f_closed := false |}].
Proof. intros H. unfold os_OpenFile. rewrite H. simpl. split; reflexivity. Qed.

Lemma os_OpenFile_fail (path : string) (w : World) :
  can_open rt path = false ->
  os_OpenFile rt path w
  = (inr (ErrOpen path), emit (EvOpenFile path (inr (ErrOpen path))) w).
Proof. intros H. unfold os_OpenFile. rewrite H. reflexivity. Qed.

Lemma is_open_after_open (path : string) (w : World) (f' : File) :
  can_open rt path = true ->
  (forall f, is_open w f = false) ->
  is_open (snd (os_OpenFile rt path w)) f' = Nat.eqb f' (length (files w)).
Proof.
  intros Hc Hnone. destruct (os_OpenFile_ok path w Hc) as [_ Hfiles].
  unfold is_open. rewrite Hfiles.
  destruct (Nat.eqb_spec f' (length (files w))) as [-> | Hne].
  - rewrite list_lookup_middle by reflexivity. reflexivity.
  - destruct (Nat.lt_ge_cases f' (length (files w))) as [Hlt | Hge].
    + rewrite lookup_app_l by exact Hlt. apply (Hnone f').
    + rewrite lookup_ge_None_2; [ reflexivity | ].
      rewrite length_app. simpl. lia.
Qed.

Lemma File_Close_open (f : File) (w : World) (e : FileEntry) :
  files w !! f = Some e -> f_closed e = false ->
  File_Close f w
  = (None,
     emit (EvClose f None)
       (with_files (<[f := {| f_name := f_name e; f_closed := true |}]> (files w)) w)).
Proof. intros He Hc. unfold File_Close. rewrite He, Hc. reflexivity. Qed.

Lemma File_Close_closed (f : File) (w : World) (e : FileEntry) :
  files w !! f = Some e -> f_closed e = true ->
  File_Close f w = (Some (ErrClosed f), emit (EvClose f (Some (ErrClosed f))) w).
Proof. intros He Hc. unfold File_Close. rewrite He, Hc. reflexivity. Qed.

(** [Close] returns what closing the file returns, and nil without a file. *)
Lemma Close_result (s : Logger.State) :
  Logger.Close s
  = match Logger.logFile (Logger.self s) with
    | None => (Some None, s)
    | Some f =>
      (Some (fst (File_Close f (Logger.world s))),
       {| Logger.self := Logger.self s;
          Logger.world := snd (File_Close f (Logger.world s)) |})
    end.
Proof.
  step_methods. destruct (Logger.logFile (Logger.self s)) as [f|]; [ | reflexivity ].
  destruct (File_Close f (Logger.world s)); reflexivity.
Qed.

(** After a first [Close] of an open sink, a second [Close] is an error. *)
Lemma Close_twice (s : Logger.State) :
  sink_open s = true ->
  exists f, Logger.logFile (Logger.self s) = Some f
            /\ fst (Logger.Close s) = Some None
            /\ fst (Logger.Close (snd (Logger.Close s))) = Some (Some (ErrClosed f)).
Proof.
  intros Hs. destruct (sink_open_inv s Hs) as (f & e & Hf & He & Hc).
  exists f. split; [ exact Hf | ].
  rewrite !Close_result, Hf. simpl. rewrite Hf. simpl.
  rewrite (File_Close_open f _ e He Hc). simpl.
  rewrite (File_Close_closed f _ {| f_name := f_name e; f_closed := true |}).
  - split; reflexivity.
  - simpl. apply list_lookup_insert_eq. eapply lookup_lt_Some; exact He.
  - reflexivity.
Qed.

Lemma Close_inv (s : Logger.State) : sink_inv s -> sink_inv (snd (Logger.Close s)).
Proof.
  intros Hinv. rewrite Close_result.
  destruct (Logger.logFile (Logger.self s)) as [f|] eqn:Hf; [ | exact Hinv ].
  apply sink_inv_none_open. simpl. apply close_logFile_none_open; assumption.
Qed.

Lemma DisableFile_spec (s : Logger.State) :
  sink_inv s ->
  let s' := snd (Logger.DisableFile s) in
  fst (Logger.DisableFile s) = Some tt
  /\ (forall f, is_open (Logger.world s') f = false)
  /\ Logger.logFile (Logger.self s') = None.
Proof.
  intros Hinv. step_methods.
  destruct (Logger.logFile (Logger.self s)) as [f|] eqn:Hf; simpl.
  - pose proof (close_logFile_none_open s f Hinv Hf) as Hnone.
    destruct (File_Close f (Logger.world s)) as [r w1]. simpl in *.
    repeat split; [ exact Hnone ].
  - repeat split; [ | exact Hf ]. apply no_logFile_none_open; assumption.
Qed.

(** The state [EnableFile] leaves when the file can be opened. *)
Lemma EnableFile_success (s : Logger.State) (path : string) :
  sink_inv s -> can_open rt path = true ->
  let n := length (files (Logger.world s)) in
  let r := Logger.EnableFile rt path s in
  fst r = Some None
  /\ Logger.logFile (Logger.self (snd r)) = Some n
  /\ (forall f, is_open (Logger.world (snd r)) f = Nat.eqb f n)
  /\ length (files (Logger.world (snd r))) = S n
  /\ f_name <$> files (Logger.world (snd r)) !! n = Some path.
Proof.
  intros Hinv Hc. step_methods.
  assert (Hopened : forall w1,
    (forall f, is_open w1 f = false) ->
    length (files w1) = length (files (Logger.world s)) ->
    let r := os_OpenFile rt path w1 in
    fst r = inl (length (files (Logger.world s)))
    /\ (forall f, is_open (snd r) f = Nat.eqb f (length (files (Logger.world s))))
    /\ length (files (snd r)) = S (length (files (Logger.world s)))
    /\ f_name <$> files (snd r) !! length (files (Logger.world s)) = Some path).
  { intros w1 Hnone Hlen. simpl.
    destruct (os_OpenFile_ok path w1 Hc) as [Hr Hfiles].
    rewrite <- Hlen. split; [ exact Hr | ]. split; [ | split ].
    - intros f. apply is_open_after_open; assumption.
    - rewrite Hfiles, length_app. simpl. lia.
    - rewrite Hfiles, list_lookup_middle by reflexivity. reflexivity. }
  destruct (Logger.logFile (Logger.self s)) as [f|] eqn:Hf; simpl.
  - pose proof (close_logFile_none_open s f Hinv Hf) as Hnone.
    pose proof (File_Close_length f (Logger.world s)) as Hlen.
    destruct (File_Close f (Logger.world s)) as [r0 w1]. simpl in *.
    destruct (Hopened w1 Hnone Hlen) as (Hr & Ho & Hl & Hn).
    destruct (os_OpenFile rt path w1) as [r w2]. simpl in *. subst r. simpl.
    repeat split; assumption.
  - destruct (Hopened (Logger.world s)) as (Hr & Ho & Hl & Hn);
      [ apply no_logFile_none_open; assumption | reflexivity | ].
    destruct (os_OpenFile rt path (Logger.world s)) as [r w2]. simpl in *.
    subst r. simpl. repeat split; assumption.
Qed.

(** The state it leaves when the file cannot be opened. *)
Lemma EnableFile_failure (s : Logger.State) (path : string) :
  sink_inv s -> can_open rt path = false ->
  let r := Logger.EnableFile rt path s in
  fst r = Some (Some (ErrOpen path))
  /\ Logger.logFile (Logger.self (snd r)) = Logger.logFile (Logger.self s)
  /\ (forall f, is_open (Logger.world (snd r)) f = false).
Proof.
  intros Hinv Hc. step_methods.
  destruct (Logger.logFile (Logger.self s)) as [f|] eqn:Hf; simpl.
  - pose proof (close_logFile_none_open s f Hinv Hf) as Hnone.
    destruct (File_Close f (Logger.world s)) as [r w1]. simpl in *.
    rewrite os_OpenFile_fail by exact Hc. simpl.
    repeat split; [ exact Hf | exact Hnone ].
  - rewrite os_OpenFile_fail by exact Hc. simpl.
    repeat split; [ exact Hf | ]. apply no_logFile_none_open; assumption.
Qed.

End SinkLifeCycle.

Section Invariant.

Variable rt : Runtime.

Lemma do_call_inv (c : Call) (s : Logger.State) :
  sink_inv s -> sink_inv (snd (do_call rt c s)).
Proof.
  intros Hinv. destruct c; cbn [do_call].
  - apply keeps_sink_inv; [ | exact Hinv ].
    eapply (keeps_leveled rt DEBUG). simpl. auto.
  - apply keeps_sink_inv; [ | exact Hinv ].
    eapply (keeps_leveled rt INFO). simpl. auto.
  - apply keeps_sink_inv; [ | exact Hinv ].
    eapply (keeps_leveled rt WARNING). simpl. auto 6.
  - apply keeps_sink_inv; [ | exact Hinv ].
    eapply (keeps_leveled rt ERROR). simpl. auto 7.
  - apply keeps_sink_inv; [ | exact Hinv ].
    eapply (keeps_leveled rt FATAL). simpl. auto 8.
  - pose proof (Close_inv s Hinv) as H. unfold Logger.bind.
    destruct (Logger.Close s) as [[r|] s1]; exact H.
  - apply keeps_sink_inv; [ unfold Logger.SetLevel; keeps | exact Hinv ].
  - apply keeps_sink_inv; [ unfold Logger.WithColors; keeps | exact Hinv ].
  - apply keeps_sink_inv; [ unfold Logger.WithTimeFormat; keeps | exact Hinv ].
  - apply keeps_sink_inv; [ unfold Logger.WithCaller; keeps | exact Hinv ].
  - apply keeps_sink_inv; [ unfold Logger.WithJSON; keeps | exact Hinv ].
  - apply sink_inv_none_open. apply (DisableFile_spec s Hinv).
  - assert (H : sink_inv (snd (Logger.EnableFile rt path s))).
    { destruct (can_open rt path) eqn:Hc.
      - destruct (EnableFile_success rt s path Hinv Hc) as (_ & Hl & Ho & _).
        intros f Hf. rewrite Ho in Hf. apply Nat.eqb_eq in Hf. subst f. exact Hl.
      - apply sink_inv_none_open. apply (EnableFile_failure rt s path Hinv Hc). }
    unfold Logger.bind.
    destruct (Logger.EnableFile rt path s) as [[r|] s1]; exact H.
Qed.

Lemma do_calls_inv (cs : list Call) (s : Logger.State) :
  sink_inv s -> sink_inv (snd (do_calls rt cs s)).
Proof.
  revert s. induction cs as [ | c cs IH ]; intros s Hinv; simpl.
  - exact Hinv.
  - pose proof (do_call_inv c s Hinv) as H. unfold Logger.bind.
    destruct (do_call rt c s) as [[r|] s1]; simpl in *.
    + apply IH. exact H.
    + exact H.
Qed.

Lemma option_of_runs (x : Setting) (s : Logger.State) :
  fst (option_of x s) = Some tt.
Proof.
  destruct x; simpl; step_methods; try reflexivity.
  - destruct w; reflexivity.
  - destruct (String.eqb layout ""); reflexivity.
Qed.

Lemma keeps_option_of (x : Setting) : keeps_sink (option_of x).
Proof. destruct x; simpl; unfold_methods; keeps. Qed.

Lemma apply_options_runs (l : list Setting) (s : Logger.State) :
  fst (apply_options (map option_of l) s) = Some tt
  /\ files (Logger.world (snd (apply_options (map option_of l) s)))
     = files (Logger.world s)
  /\ Logger.logFile (Logger.self (snd (apply_options (map option_of l) s)))
     = Logger.logFile (Logger.self s).
Proof.
  revert s. induction l as [ | x l IH ]; intros s; simpl.
  - repeat split.
  - unfold Logger.bind.
    pose proof (option_of_runs x s) as Hr.
    destruct (keeps_option_of x s) as [Hf Hl].
    destruct (option_of x s) as [[[]|] s1]; simpl in *; [ | discriminate ].
    destruct (IH s1) as (H1 & H2 & H3).
    repeat split; congruence.
Qed.

(** [NewLogger] with the package's options, started with no file open:
    it returns, and a logger it returns satisfies the invariant. *)
Lemma NewLogger_inv (l : list Setting) (w : World) :
  open_files w = [] ->
  match NewLogger rt (map option_of l) w with
  | (Some (inl lg), w0) => sink_inv {| Logger.self := lg; Logger.world := w0 |}
  | (Some (inr _), w0) => open_files w0 = []
  | (None, _) => False
  end.
Proof.
  intros Hnone. pose proof (open_files_nil_inv w Hnone) as Hclosed.
  unfold NewLogger, construct.
  unfold Logger.bind at 1.
  destruct (apply_options_runs l {| Logger.self := defaults; Logger.world := w |})
    as (Hr & Hf & Hl).
  destruct (apply_options (map option_of l)
              {| Logger.self := defaults; Logger.world := w |}) as [[[]|] s1];
    simpl in *; [ | discriminate ].
  unfold_monad. simpl.
  set (w1 := if negb (String.eqb (os_Getenv "FORCE_COLOR" (Logger.world s1)) "")
             then with_NoColor false (Logger.world s1)
             else if negb (String.eqb (os_Getenv "NO_COLOR" (Logger.world s1)) "")
                  then with_NoColor true (Logger.world s1)
                  else Logger.world s1).
  assert (Hw1 : files w1 = files w).
  { unfold w1. destruct (negb _); [ exact Hf | ]. destruct (negb _); exact Hf. }
  assert (Hclosed1 : forall f, is_open w1 f = false).
  { intros f. unfold is_open. rewrite Hw1. apply Hclosed. }
  destruct (negb (String.eqb (Logger.filePath (Logger.self s1)) "")); simpl.
  - destruct (can_open rt (Logger.filePath (Logger.self s1))) eqn:Hc.
    + pose proof (is_open_after_open rt (Logger.filePath (Logger.self s1)) w1)
        as Ho.
      destruct (os_OpenFile_ok rt (Logger.filePath (Logger.self s1)) w1 Hc)
        as [Hres _].
      destruct (os_OpenFile rt (Logger.filePath (Logger.self s1)) w1)
        as [r w2]. simpl in *. subst r. simpl.
      intros f Hopen. simpl in *. rewrite Ho in Hopen by assumption.
      apply Nat.eqb_eq in Hopen. subst f. reflexivity.
    + rewrite os_OpenFile_fail by exact Hc. simpl.
      apply open_files_nil. intros f. apply Hclosed1.
  - apply sink_inv_none_open. simpl. exact Hclosed1.
Qed.

End Invariant.

Section SinkClaims.

Variable rt : Runtime.

Lemma EnableFile_names (s : Logger.State) (path : string) (f' : File) :
  can_open rt path = true ->
  (f' < length (files (Logger.world s)))%nat ->
  f_name <$> files (Logger.world (snd (Logger.EnableFile rt path s))) !! f'
  = f_name <$> files (Logger.world s) !! f'.
Proof.
  intros Hc Hlt. step_methods.
  destruct (Logger.logFile (Logger.self s)) as [f|]; simpl.
  - pose proof (File_Close_name f (Logger.world s) f') as Hn.
    pose proof (File_Close_length f (Logger.world s)) as Hlen.
    destruct (File_Close f (Logger.world s)) as [r0 w1]. simpl in *.
    destruct (os_OpenFile_ok rt path w1 Hc) as [Hr Hfiles].
    destruct (os_OpenFile rt path w1) as [r w2]. simpl in *. subst r. simpl.
    rewrite Hfiles, lookup_app_l by lia. exact Hn.
  - destruct (os_OpenFile_ok rt path (Logger.world s) Hc) as [Hr Hfiles].
    destruct (os_OpenFile rt path (Logger.world s)) as [r w2]. simpl in *.
    subst r. simpl. rewrite Hfiles, lookup_app_l by lia. reflexivity.
Qed.

Lemma open_files_singleton (w : World) (n : nat) :
  (forall f, is_open w f = Nat.eqb f n) -> open_files w = [n].
Proof.
  intros H. apply NoDup_singleton_iff; [ apply NoDup_open_from | ].
  intros f. rewrite In_open_files, H. apply Nat.eqb_eq.
Qed.

(** C6. From [NewLogger] on, after any sequence of calls, every open file
    is the one [logFile] refers to, so at most one file is open.
    [EnableFile(pathA)] then [EnableFile(pathB)], both succeeding, leave
    open the file of [pathB] alone, the one of [pathA] closed; [DisableFile]
    leaves none open and [logFile] nil. *)
Theorem at_most_one_open_file :
  forall (settings : list Setting) (w : World),
  open_files w = [] ->
  match NewLogger rt (map option_of settings) w with
  | (Some (inl l), w0) =>
    forall cs,
    let s := snd (do_calls rt cs {| Logger.self := l; Logger.world := w0 |}) in
    owns_open_files s
    /\ (length (open_files (Logger.world s)) <= 1)%nat
    /\ (forall pathA pathB,
          can_open rt pathA = true -> can_open rt pathB = true ->
          let sA := snd (Logger.EnableFile rt pathA s) in
          let sB := snd (Logger.EnableFile rt pathB sA) in
          exists fA fB,
            Logger.logFile (Logger.self sA) = Some fA
            /\ open_files (Logger.world sA) = [fA]
            /\ f_name <$> files (Logger.world sA) !! fA = Some pathA
            /\ Logger.logFile (Logger.self sB) = Some fB
            /\ open_files (Logger.world sB) = [fB]
            /\ f_name <$> files (Logger.world sB) !! fB = Some pathB
            /\ fA <> fB
            /\ is_open (Logger.world sB) fA = false
            /\ f_name <$> files (Logger.world sB) !! fA = Some pathA)
    /\ (let sD := snd (Logger.DisableFile s) in
        open_files (Logger.world sD) = []
        /\ Logger.logFile (Logger.self sD) = None)
  | (Some (inr _), w0) => open_files w0 = []
  | (None, _) => False
  end.
Proof.
  intros settings w Hnone.
  pose proof (NewLogger_inv rt settings w Hnone) as Hnew.
  destruct (NewLogger rt (map option_of settings) w) as [[[l | err]|] w0];
    [ | exact Hnew | exact Hnew ].
  intros cs s.
  assert (Hinv : sink_inv s) by (apply do_calls_inv; exact Hnew).
  split; [ apply owns_open_files_iff; exact Hinv | ].
  split; [ apply sink_inv_at_most_one; exact Hinv | ].
  split.
  - intros pathA pathB HA HB sA sB.
    destruct (EnableFile_success rt s pathA Hinv HA) as (_ & HlA & HoA & HnA & HpA).
    fold sA in HlA, HoA, HnA, HpA.
    assert (HinvA : sink_inv sA).
    { intros f Hf. rewrite HoA in Hf. apply Nat.eqb_eq in Hf. subst f. exact HlA. }
    destruct (EnableFile_success rt sA pathB HinvA HB) as (_ & HlB & HoB & HnB & HpB).
    fold sB in HlB, HoB, HnB, HpB.
    exists (length (files (Logger.world s))), (length (files (Logger.world sA))).
    split; [ exact HlA | ].
    split; [ apply open_files_singleton; exact HoA | ].
    split; [ exact HpA | ].
    split; [ exact HlB | ].
    split; [ apply open_files_singleton; exact HoB | ].
    split; [ exact HpB | ].
    split; [ lia | ].
    split.
    + rewrite HoB. apply Nat.eqb_neq. lia.
    + unfold sB. rewrite EnableFile_names by (exact HB || lia). exact HpA.
  - destruct (DisableFile_spec s Hinv) as (_ & Hclosed & Hl).
    split; [ apply open_files_nil; exact Hclosed | exact Hl ].
Qed.


(** C2, as the code has it.  [Close] without a file returns nil and changes
    nothing, and [Close] returns what closing the file returns; but the
    first [Close] of an open sink leaves [logFile] set, and the second one
    returns the error of closing a closed file. *)
Theorem Close_second_call_is_an_error :
  forall s,
  (Logger.logFile (Logger.self s) = None -> Logger.Close s = (Some None, s))
  /\ (forall f, Logger.logFile (Logger.self s) = Some f ->
        fst (Logger.Close s) = Some (fst (File_Close f (Logger.world s))))
  /\ (sink_open s = true ->
      exists f, Logger.logFile (Logger.self s) = Some f
                /\ fst (Logger.Close s) = Some None
                /\ Logger.logFile (Logger.self (snd (Logger.Close s))) = Some f
                /\ fst (Logger.Close (snd (Logger.Close s)))
                   = Some (Some (ErrClosed f))).
Proof.
  intros s. split; [ | split ].
  - intros H. rewrite Close_result, H. reflexivity.
  - intros f H. rewrite Close_result, H. reflexivity.
  - intros Hs. destruct (Close_twice s Hs) as (f & Hf & H1 & H2).
    exists f. repeat split; try assumption.
    rewrite Close_result, Hf. exact Hf.
Qed.


End SinkClaims.

(** ** Reading back what [Marshal] wrote *)

Lemma string_length_app (a b : string) :
  String.length (a +:+ b) = (String.length a + String.length b)%nat.
Proof. induction a as [ | x a IH ]; simpl; [ reflexivity | now rewrite IH ]. Qed.

Lemma string_drop_length (n : nat) (s : string) :
  (String.length (string_drop n s) <= String.length s - n)%nat.
Proof.
  revert s. induction n as [ | n IH ]; intros s; simpl.
  - lia.
  - destruct s as [ | c s ]; simpl; [ lia | apply IH ].
Qed.

Lemma prepend_prepend (a b : string) (r : option (string * string)) :
  json.prepend a (json.prepend b r) = json.prepend (a +:+ b) r.
Proof.
  destruct r as [[v rest]|]; simpl; [ | reflexivity ].
  now rewrite string_app_assoc.
Qed.

Lemma byte_quote : byte quote = 34.
Proof. reflexivity. Qed.

Lemma byte_backslash : byte backslash = 92.
Proof. reflexivity. Qed.

Lemma unquote_high_byte (c : ascii) (X : string) :
  json.high c = true ->
  json.unquote (String c X) = json.prepend (String c "") (json.unquote X).
Proof.
  unfold json.high. intros H. apply Z.leb_le in H. simpl.
  destruct (Ascii.eqb_spec c quote) as [-> | _];
    [ rewrite byte_quote in H; lia | ].
  destruct (Ascii.eqb_spec c backslash) as [-> | _];
    [ rewrite byte_backslash in H; lia | ].
  destruct (Z.ltb_spec (byte c) 0x20) as [Hlt | _]; [ lia | reflexivity ].
Qed.

Lemma unquote_high (p X : string) :
  string_forall json.high p = true ->
  json.unquote (p +:+ X) = json.prepend p (json.unquote X).
Proof.
  induction p as [ | c p IH ]; intros H.
  - simpl. destruct (json.unquote X) as [[v rest]|]; reflexivity.
  - simpl in H. apply andb_prop in H as [Hc Hp].
    change (String c p +:+ X) with (String c (p +:+ X)).
    rewrite unquote_high_byte by exact Hc.
    rewrite IH by exact Hp. apply prepend_prepend.
Qed.

(** One ASCII byte, as [appendString] writes it, reads back as itself. *)
Lemma unquote_ascii (escapeHTML : bool) (c : ascii) (X : string) :
  (byte c <? 0x80) = true ->
  json.unquote
    ((if json.htmlSafeSet c || (negb escapeHTML && json.safeSet c)
      then String c ""
      else json.escape_byte c) +:+ X)
  = json.prepend (String c "") (json.unquote X).
Proof.
  intros H.
  destruct c as [b0 b1 b2 b3 b4 b5 b6 b7].
  destruct b7; [ destruct b0, b1, b2, b3, b4, b5, b6; discriminate H | ].
  destruct escapeHTML, b0, b1, b2, b3, b4, b5, b6; reflexivity.
Qed.

(** A well-formed multi-byte encoding consists of high bytes. *)
Lemma DecodeRune_high (c0 : ascii) (r0 : string) :
  (byte c0 <? 0x80) = false ->
  let '(c, size) := json.DecodeRuneInString (String c0 r0) in
  (c = json.RuneError /\ size = 1%nat)
  \/ ((1 <= size)%nat
      /\ string_forall json.high (string_take size (String c0 r0)) = true).
Proof.
  intros H0. apply Z.ltb_ge in H0.
  assert (Hh0 : json.high c0 = true) by (apply Z.leb_le; exact H0).
  assert (Hr : forall (c : ascii) lo hi, 0x80 <= lo ->
            json.in_range c lo hi = true -> json.high c = true).
  { intros c lo hi Hlo Hin. unfold json.in_range in Hin.
    apply andb_prop in Hin as [Hin _]. apply Z.leb_le in Hin.
    apply Z.leb_le. lia. }
  unfold json.DecodeRuneInString.
  destruct (byte c0 <? 0x80) eqn:E; [ apply Z.ltb_lt in E; lia | ].
  destruct ((byte c0 <? 0xC2) || (0xF4 <? byte c0)); [ left; auto | ].
  set (lo := if byte c0 =? 0xE0 then 0xA0 else if byte c0 =? 0xF0 then 0x90 else 0x80).
  set (hi := if byte c0 =? 0xED then 0x9F else if byte c0 =? 0xF4 then 0x8F else 0xBF).
  assert (Hlo : 0x80 <= lo).
  { unfold lo. destruct (byte c0 =? 0xE0); [ lia | ].
    destruct (byte c0 =? 0xF0); lia. }
  destruct r0 as [ | c1 r1 ]; [ left; auto | ].
  destruct (json.in_range c1 lo hi) eqn:E1; simpl; [ | left; auto ].
  pose proof (Hr c1 lo hi Hlo E1) as Hh1.
  destruct (byte c0 <? 0xE0).
  { right. split; [ lia | ]. simpl. rewrite Hh0, Hh1. reflexivity. }
  destruct r1 as [ | c2 r2 ]; [ left; auto | ].
  destruct (json.in_range c2 0x80 0xBF) eqn:E2; simpl; [ | left; auto ].
  pose proof (Hr c2 0x80 0xBF ltac:(lia) E2) as Hh2.
  destruct (byte c0 <? 0xF0).
  { right. split; [ lia | ]. simpl. rewrite Hh0, Hh1, Hh2. reflexivity. }
  destruct r2 as [ | c3 r3 ]; [ left; auto | ].
  destruct (json.in_range c3 0x80 0xBF) eqn:E3; simpl; [ | left; auto ].
  pose proof (Hr c3 0x80 0xBF ltac:(lia) E3) as Hh3.
  right. split; [ lia | ]. simpl. rewrite Hh0, Hh1, Hh2, Hh3. reflexivity.
Qed.

Lemma unquote_replacement (Y : string) :
  json.unquote (String backslash "ufffd" +:+ Y)
  = json.prepend (json.EncodeRune json.RuneError) (json.unquote Y).
Proof. reflexivity. Qed.

Lemma unquote_separator (c : Z) (Y : string) :
  c = 0x2028 \/ c = 0x2029 ->
  json.unquote
    (String backslash (String "u" (String "2" (String "0" (String "2"
       (String (json.hex (Z.land c 0xF)) ""))))) +:+ Y)
  = json.prepend (json.EncodeRune c) (json.unquote Y).
Proof. intros [-> | ->]; reflexivity. Qed.

(** The body of a literal [appendString] wrote, up to its closing quote,
    reads back as [readback] of the source. *)
Lemma unquote_appendString_loop (fuel : nat) (escapeHTML : bool) (src X : string) :
  (String.length src <= fuel)%nat ->
  json.unquote (json.appendString_loop fuel escapeHTML src +:+ String quote X)
  = Some (json.readback_loop fuel src, X).
Proof.
  revert src. induction fuel as [ | fuel IH ]; intros src Hlen.
  - destruct src; simpl in Hlen; [ reflexivity | lia ].
  - destruct src as [ | c rest ]; [ reflexivity | ].
    simpl in Hlen. cbn [json.appendString_loop json.readback_loop].
    destruct (byte c <? 0x80) eqn:E.
    + rewrite string_app_assoc, unquote_ascii by exact E.
      rewrite IH by lia. reflexivity.
    + pose proof (DecodeRune_high c rest E) as Hd.
      destruct (json.DecodeRuneInString (String c rest)) as [r size].
      assert (Hsize : (1 <= size)%nat) by (destruct Hd as [[_ ->] | [H _]]; lia).
      assert (Hdrop : (String.length (string_drop size (String c rest)) <= fuel)%nat).
      { pose proof (string_drop_length size (String c rest)) as H.
        simpl in H. simpl. lia. }
      destruct ((r =? json.RuneError) && Nat.eqb size 1) eqn:E1.
      * rewrite string_app_assoc, unquote_replacement, IH by exact Hdrop.
        reflexivity.
      * destruct ((r =? 0x2028) || (r =? 0x2029)) eqn:E2.
        -- rewrite string_app_assoc, unquote_separator, IH by
             first [ exact Hdrop
                   | apply orb_prop in E2 as [E2 | E2]; apply Z.eqb_eq in E2; auto ].
           reflexivity.
        -- destruct Hd as [[-> ->] | [_ Hhigh]].
           ++ rewrite Z.eqb_refl in E1. discriminate E1.
           ++ rewrite string_app_assoc, unquote_high, IH by assumption.
              reflexivity.
Qed.

Lemma unquote_appendString (escapeHTML : bool) (src X : string) :
  exists L,
    json.appendString escapeHTML src +:+ X = String quote L
    /\ json.unquote L = Some (json.readback src, X).
Proof.
  exists (json.appendString_loop (String.length src) escapeHTML src
          +:+ String quote X).
  split.
  - unfold json.appendString. simpl. rewrite string_app_assoc. reflexivity.
  - apply unquote_appendString_loop. lia.
Qed.

Lemma member_encode_member (escapeHTML : bool) (kv : string * string) (X : string) :
  json.member (json.encode_member escapeHTML kv +:+ X)
  = Some (json.readback_member kv, X).
Proof.
  unfold json.encode_member. rewrite !string_app_assoc.
  destruct (unquote_appendString escapeHTML (fst kv)
              (":" +:+ json.appendString escapeHTML (snd kv) +:+ X))
    as (L & -> & HL).
  destruct (unquote_appendString escapeHTML (snd kv) X) as (L' & HL'eq & HL').
  rewrite HL'eq in HL.
  unfold json.member. rewrite Ascii.eqb_refl, HL. simpl.
  rewrite HL'. reflexivity.
Qed.

Lemma members_join (escapeHTML : bool) (l : list (string * string)) (fuel : nat)
  (X : string) :
  l <> [] -> (length l <= fuel)%nat ->
  json.members fuel
    (json.join_members (map (json.encode_member escapeHTML) l) +:+ "}" +:+ X)
  = Some (map json.readback_member l, X).
Proof.
  revert fuel. induction l as [ | kv l IH ]; intros fuel Hne Hlen; [ congruence | ].
  destruct fuel as [ | fuel ]; simpl in Hlen; [ lia | ].
  destruct l as [ | kv' l ].
  - cbn [json.join_members map json.members].
    rewrite member_encode_member. reflexivity.
  - change (json.join_members (map (json.encode_member escapeHTML) (kv :: kv' :: l)))
      with (json.encode_member escapeHTML kv +:+ "," +:+
            json.join_members (map (json.encode_member escapeHTML) (kv' :: l))).
    rewrite !string_app_assoc. cbn [json.members].
    rewrite member_encode_member.
    change ("," +:+ ?Y) with (String "," Y).
    cbn iota. simpl (Ascii.eqb _ _). cbn iota.
    rewrite IH by (simpl in *; congruence || lia). reflexivity.
Qed.

Lemma encode_member_quote (escapeHTML : bool) (kv : string * string) :
  exists R, json.encode_member escapeHTML kv = String quote R.
Proof. unfold json.encode_member, json.appendString. simpl. eexists. reflexivity. Qed.

Lemma join_members_quote (escapeHTML : bool) (l : list (string * string)) :
  l <> [] ->
  exists R, json.join_members (map (json.encode_member escapeHTML) l) = String quote R.
Proof.
  destruct l as [ | kv [ | kv' l ] ]; intros Hne; [ congruence | | ].
  - apply encode_member_quote.
  - destruct (encode_member_quote escapeHTML kv) as [R HR].
    cbn [map json.join_members]. rewrite HR. simpl. eexists. reflexivity.
Qed.

Lemma join_members_length (escapeHTML : bool) (l : list (string * string)) :
  (length l
   <= String.length (json.join_members (map (json.encode_member escapeHTML) l)))%nat.
Proof.
  induction l as [ | kv l IH ]; [ simpl; lia | ].
  destruct (encode_member_quote escapeHTML kv) as [R HR].
  destruct l as [ | kv' l ].
  - cbn [map json.join_members]. rewrite HR. simpl. lia.
  - change (json.join_members (map (json.encode_member escapeHTML) (kv :: kv' :: l)))
      with (json.encode_member escapeHTML kv +:+ "," +:+
            json.join_members (map (json.encode_member escapeHTML) (kv' :: l))).
    rewrite !string_length_app, HR. simpl in *. lia.
Qed.

(** A line [Marshal] wrote reads back as the members of the map, in key
    order, each string as [readback] gives it. *)
Lemma Unmarshal_line_Marshal (escapeHTML : bool) (m : gmap string string) :
  json.Unmarshal_line (json.Marshal escapeHTML m +:+ nl)
  = Some (map json.readback_member (json.sorted_entries m)).
Proof.
  unfold json.Marshal.
  destruct (json.sorted_entries m) as [ | kv l ] eqn:El; [ reflexivity | ].
  assert (Hne : kv :: l <> []) by congruence.
  destruct (join_members_quote escapeHTML (kv :: l) Hne) as [R HR].
  pose proof (join_members_length escapeHTML (kv :: l)) as Hlen.
  pose proof (members_join escapeHTML (kv :: l)) as Hm.
  set (J := json.join_members (map (json.encode_member escapeHTML) (kv :: l))) in *.
  change ("{" +:+ J +:+ "}") with (String "{" (J +:+ "}")).
  change (String "{" (J +:+ "}") +:+ nl) with (String "{" ((J +:+ "}") +:+ nl)).
  rewrite string_app_assoc.
  unfold json.Unmarshal_line. simpl (Ascii.eqb "{" "{"). cbn iota.
  assert (Hhead : J +:+ "}" +:+ nl = String quote (R +:+ "}" +:+ nl))
    by (rewrite HR; reflexivity).
  rewrite Hhead at 1. simpl (Ascii.eqb quote "}"). cbn iota.
  rewrite Hm; [ | exact Hne | rewrite string_length_app; lia ].
  rewrite String.eqb_refl. reflexivity.
Qed.

Lemma sorted_entries_3 (T N M : string) :
  json.sorted_entries (<["msg" := M]> (<["level" := N]> {["time" := T]}))
  = [("level", N); ("msg", M); ("time", T)].
Proof. vm_compute. reflexivity. Qed.

Lemma sorted_entries_4 (T N M C : string) :
  json.sorted_entries
    (<["caller" := C]> (<["msg" := M]> (<["level" := N]> {["time" := T]})))
  = [("caller", C); ("level", N); ("msg", M); ("time", T)].
Proof. vm_compute. reflexivity. Qed.

Lemma safeSet_ascii (c : ascii) : json.safeSet c = true -> (byte c <? 0x80) = true.
Proof.
  unfold json.safeSet. intros H.
  apply andb_prop in H as [H _]. apply andb_prop in H as [H _].
  apply andb_prop in H as [_ H]. exact H.
Qed.

Lemma appendString_loop_safe (fuel : nat) (x : string) :
  (String.length x <= fuel)%nat -> string_forall json.safeSet x = true ->
  json.appendString_loop fuel false x = x
  /\ json.readback_loop fuel x = x.
Proof.
  revert fuel. induction x as [ | c x IH ]; intros fuel Hlen Hsafe.
  - destruct fuel; split; reflexivity.
  - destruct fuel as [ | fuel ]; simpl in Hlen; [ lia | ].
    simpl in Hsafe. apply andb_prop in Hsafe as [Hc Hx].
    destruct (IH fuel ltac:(lia) Hx) as [IH1 IH2].
    cbn [json.appendString_loop json.readback_loop].
    rewrite (safeSet_ascii c Hc), Hc, IH1, IH2.
    rewrite orb_true_r. split; reflexivity.
Qed.

(** With HTML escaping off, a string of safe bytes is written as it is
    between two quotes, and reads back as itself. *)
Lemma appendString_safe (x : string) :
  string_forall json.safeSet x = true ->
  json.appendString false x = String quote (x +:+ String quote "")
  /\ json.readback x = x.
Proof.
  intros H. unfold json.appendString, json.readback.
  destruct (appendString_loop_safe (String.length x) x ltac:(lia) H) as [H1 H2].
  rewrite H1, H2. split; reflexivity.
Qed.

Lemma string_forall_app (p : ascii -> bool) (a b : string) :
  string_forall p (a +:+ b) = string_forall p a && string_forall p b.
Proof.
  induction a as [ | c a IH ]; simpl; [ reflexivity | ].
  rewrite IH. apply andb_assoc.
Qed.

Lemma string_forall_impl (p q : ascii -> bool) (a : string) :
  (forall c, p c = true -> q c = true) ->
  string_forall p a = true -> string_forall q a = true.
Proof.
  intros Hpq. induction a as [ | c a IH ]; simpl; [ reflexivity | ].
  intros H. apply andb_prop in H as [Hc Ha].
  rewrite (Hpq c Hc), (IH Ha). reflexivity.
Qed.

Lemma high_not_newline (c : ascii) : json.high c = true -> not_newline c = true.
Proof.
  unfold json.high, not_newline. intros H. apply Z.leb_le in H.
  destruct (Ascii.eqb_spec c newline) as [-> | _]; [ | reflexivity ].
  change (byte newline) with 10 in H. lia.
Qed.

Lemma ascii_form_no_newline (escapeHTML : bool) (c : ascii) :
  (byte c <? 0x80) = true ->
  string_forall not_newline
    (if json.htmlSafeSet c || (negb escapeHTML && json.safeSet c)
     then String c ""
     else json.escape_byte c) = true.
Proof.
  intros H.
  destruct c as [b0 b1 b2 b3 b4 b5 b6 b7].
  destruct b7; [ destruct b0, b1, b2, b3, b4, b5, b6; discriminate H | ].
  destruct escapeHTML, b0, b1, b2, b3, b4, b5, b6; reflexivity.
Qed.

(** [appendString] writes no newline: it escapes the ones of the source. *)
Lemma appendString_loop_no_newline (fuel : nat) (escapeHTML : bool) (src : string) :
  string_forall not_newline (json.appendString_loop fuel escapeHTML src) = true.
Proof.
  revert src. induction fuel as [ | fuel IH ]; intros src; [ reflexivity | ].
  destruct src as [ | c rest ]; [ reflexivity | ].
  cbn [json.appendString_loop].
  destruct (byte c <? 0x80) eqn:E.
  - rewrite string_forall_app, ascii_form_no_newline, IH by exact E. reflexivity.
  - pose proof (DecodeRune_high c rest E) as Hd.
    destruct (json.DecodeRuneInString (String c rest)) as [r size].
    destruct ((r =? json.RuneError) && Nat.eqb size 1) eqn:E1.
    + rewrite string_forall_app, IH. reflexivity.
    + destruct ((r =? 0x2028) || (r =? 0x2029)) eqn:E2.
      * rewrite string_forall_app, IH.
        apply orb_prop in E2 as [E2 | E2]; apply Z.eqb_eq in E2; subst r;
          reflexivity.
      * destruct Hd as [[-> ->] | [_ Hhigh]].
        -- rewrite Z.eqb_refl in E1. discriminate E1.
        -- rewrite string_forall_app, IH, andb_true_r.
           apply (string_forall_impl json.high); [ | exact Hhigh ].
           exact high_not_newline.
Qed.

Lemma encode_member_no_newline (escapeHTML : bool) (kv : string * string) :
  string_forall not_newline (json.encode_member escapeHTML kv) = true.
Proof.
  assert (H : forall x,
    string_forall not_newline (json.appendString escapeHTML x) = true).
  { intros x. unfold json.appendString.
    rewrite string_forall_app. cbn [string_forall].
    rewrite appendString_loop_no_newline. reflexivity. }
  unfold json.encode_member. rewrite !string_forall_app, !H. reflexivity.
Qed.

(** The object [Marshal] writes holds no newline: with the one that
    follows it, it is one line. *)
Lemma Marshal_no_newline (escapeHTML : bool) (m : gmap string string) :
  string_forall not_newline (json.Marshal escapeHTML m) = true.
Proof.
  unfold json.Marshal. rewrite !string_forall_app.
  assert (H : forall l,
    string_forall not_newline
      (json.join_members (map (json.encode_member escapeHTML) l)) = true).
  { induction l as [ | kv [ | kv' l ] IH ]; [ reflexivity | | ].
    - apply encode_member_no_newline.
    - change (json.join_members (map (json.encode_member escapeHTML) (kv :: kv' :: l)))
        with (json.encode_member escapeHTML kv +:+ "," +:+
              json.join_members (map (json.encode_member escapeHTML) (kv' :: l))).
      rewrite !string_forall_app, encode_member_no_newline, IH. reflexivity. }
  rewrite H. reflexivity.
Qed.

Section Structured.

Variable rt : Runtime.

(** C7. In structured mode a passing call with an open sink appends to the
    file one chunk: the object [Marshal] makes, with HTML escaping off, of
    the members [time], [level], [msg] and, when the caller is not empty,
    [caller], then a newline, the only one of the chunk.  The chunk reads
    back as one record with exactly these members, [level] being the bare
    name of the level.
    Escaping off means that a string of safe bytes, among them the angle
    brackets and the ampersand, is written as it is. *)
Theorem json_mode_file_record :
  forall sev cl name m, In (sev, cl, name, m) (leveled rt) ->
  forall msg v s g,
  Logger.level (Logger.self s) <= sev ->
  cl (Logger.self s) = Some g ->
  Logger.jsonMode (Logger.self s) = true ->
  sink_open s = true ->
  let w := Logger.world s in
  let w' := Logger.world (snd (m msg v s)) in
  let caller := Logger.caller_info rt (Logger.self s) in
  let fullMsg := match v with
                 | [] => msg
                 | _ :: _ => fmt_Sprintf rt msg v
                 end in
  let nowStr := time_Format rt (now w) (Logger.timeFormat (Logger.self s)) in
  let entry : gmap string string :=
    <["msg" := fullMsg]> (<["level" := name]> {["time" := nowStr]}) in
  exists f e rec,
    Logger.logFile (Logger.self s) = Some f /\ files w !! f = Some e
    /\ disk w' = <[f_name e := file_content w (f_name e) ++ [rec]]> (disk w)
    /\ rec = json.Marshal false
               (if String.eqb caller "" then entry
                else <["caller" := caller]> entry) +:+ nl
    /\ (exists body, rec = body +:+ nl /\ string_forall not_newline body = true)
    /\ json.Unmarshal_line rec
       = Some ((if String.eqb caller "" then []
                else [("caller", json.readback caller)])
               ++ [("level", name); ("msg", json.readback fullMsg);
                   ("time", json.readback nowStr)])
    /\ (forall x, string_forall json.safeSet x = true ->
          json.appendString false x = String quote (x +:+ String quote "")
          /\ json.readback x = x)
    /\ string_forall json.safeSet "<>&" = true.
Proof.
  intros sev cl name m Hin msg v s g Hle Hcl Hj Hs w w' caller fullMsg nowStr entry.
  destruct (leveled_passing_world rt sev cl name m Hin msg v s g Hle Hcl)
    as (_ & Hd & _ & _ & _).
  destruct (formatted_parts msg v w) as (_ & Fd & Ff & Fn & _).
  fold w in Hd. fold w' in Hd.
  destruct (sink_open_inv s Hs) as (f & e & Hf & He & Hcl').
  exists f, e. eexists. split; [ exact Hf | ]. split; [ exact He | ].
  split.
  { rewrite Hd.
    rewrite (emitted_disk_open rt g name _ _ _ f e Hf);
      [ | rewrite Ff; exact He | exact Hcl' ].
    unfold file_content, file_record, expected_entry. rewrite Fd, Fn, Hj.
    reflexivity. }
  split; [ reflexivity | ].
  split; [ eexists; split; [ reflexivity | apply Marshal_no_newline ] | ].
  split; [ | split; [ exact appendString_safe | reflexivity ] ].
  rewrite Unmarshal_line_Marshal.
  fold caller. fold nowStr. fold (full_message rt msg v).
  assert (Hname : json.readback name = name).
  { simpl in Hin.
    repeat (destruct Hin as [Hin | Hin];
      [ inversion Hin; reflexivity | ]). contradiction. }
  destruct (String.eqb caller "").
  - rewrite sorted_entries_3. unfold json.readback_member. simpl.
    rewrite Hname. reflexivity.
  - rewrite sorted_entries_4. unfold json.readback_member. simpl.
    rewrite Hname. reflexivity.
Qed.

End Structured.

(** ** Lines per call *)



Section Lines.

Variable rt : Runtime.




End Lines.

(** ** The console loggers of a constructed logger *)

Lemma keeps_self_ret {A : Type} (a : A) : keeps_self (Logger.ret a).
Proof. intros s. reflexivity. Qed.

Lemma keeps_self_bind {A B : Type} (m : Logger.M A) (k : A -> Logger.M B) :
  keeps_self m -> (forall a, keeps_self (k a)) -> keeps_self (Logger.bind m k).
Proof.
  intros Hm Hk s. unfold Logger.bind. specialize (Hm s).
  destruct (m s) as [[a|] s1]; simpl in *; [ | exact Hm ].
  rewrite (Hk a s1). exact Hm.
Qed.

Lemma keeps_self_get_self : keeps_self Logger.get_self.
Proof. intros s. reflexivity. Qed.

Lemma keeps_self_read {A : Type} (f : World -> A) : keeps_self (Logger.read f).
Proof. intros s. reflexivity. Qed.

Lemma keeps_self_effect (f : World -> World) : keeps_self (Logger.effect f).
Proof. intros s. reflexivity. Qed.

Lemma keeps_self_call {A : Type} (f : World -> A * World) :
  keeps_self (Logger.call f).
Proof. intros s. unfold Logger.call. destruct (f (Logger.world s)). reflexivity. Qed.

Lemma keeps_self_os_Exit (code : Z) : keeps_self (Logger.os_Exit code).
Proof. intros s. reflexivity. Qed.

Lemma keeps_self_panic {A : Type} (why : string) : keeps_self (@Logger.panic A why).
Proof. intros s. reflexivity. Qed.

Ltac keeps_self :=
  repeat first
    [ apply keeps_self_ret | apply keeps_self_get_self | apply keeps_self_read
    | apply keeps_self_os_Exit | apply keeps_self_panic | apply keeps_self_call
    | apply keeps_self_effect
    | apply keeps_self_bind; [ | intros ? ]
    | match goal with
      | |- keeps_self (if ?c then _ else _) => destruct c
      | |- keeps_self (match ?x with _ => _ end) => destruct x
      end ].

Section ConsoleReady.

Variable rt : Runtime.

Lemma keeps_self_log (level : LogLevel) (msg : string) :
  keeps_self (Logger.log rt level msg).
Proof. unfold Logger.log, Logger.Println. keeps_self. Qed.

(** The leveled methods do not assign to the logger. *)
Lemma keeps_self_leveled sev cl name m :
  In (sev, cl, name, m) (leveled rt) -> forall msg v, keeps_self (m msg v).
Proof.
  intros Hin msg v. simpl in Hin.
  repeat (destruct Hin as [Hin | Hin];
    [ inversion Hin; subst; clear Hin | ]); try contradiction.
  all: unfold Logger.Debug, Logger.Info, Logger.Warning, Logger.Error,
         Logger.Fatal, Logger.Sprintf.
  all: apply keeps_self_bind; [ apply keeps_self_get_self | intros l ].
  all: match goal with |- keeps_self (if ?c then _ else _) => destruct c end;
         [ apply keeps_self_ret | ].
  all: apply keeps_self_bind; [ keeps_self | intros fullMsg ].
  all: try apply keeps_self_log.
  all: apply keeps_self_bind; [ apply keeps_self_log | intros ? ];
         apply keeps_self_os_Exit.
Qed.

Lemma do_call_console_ready (c : Call) (s : Logger.State) :
  console_ready (Logger.self s) = true ->
  console_ready (Logger.self (snd (do_call rt c s))) = true.
Proof.
  intros H. destruct c; cbn [do_call].
  - rewrite (keeps_self_leveled DEBUG _ _ _ ltac:(simpl; auto)). exact H.
  - rewrite (keeps_self_leveled INFO _ _ _ ltac:(simpl; auto)). exact H.
  - rewrite (keeps_self_leveled WARNING _ _ _ ltac:(simpl; auto 6)). exact H.
  - rewrite (keeps_self_leveled ERROR _ _ _ ltac:(simpl; auto 7)). exact H.
  - rewrite (keeps_self_leveled FATAL _ _ _ ltac:(simpl; auto 8)). exact H.
  - unfold Logger.bind. rewrite Close_result.
    destruct (Logger.logFile (Logger.self s)); exact H.
  - exact H.
  - exact H.
  - step_methods. destruct (String.eqb layout ""); exact H.
  - exact H.
  - exact H.
  - step_methods. destruct (Logger.logFile (Logger.self s)) as [f|]; simpl;
      [ destruct (File_Close f (Logger.world s)) | ]; exact H.
  - step_methods. destruct (Logger.logFile (Logger.self s)) as [f|]; simpl.
    + destruct (File_Close f (Logger.world s)) as [r0 w1]. simpl.
      destruct (os_OpenFile rt path w1) as [[f'|err] w2]; exact H.
    + destruct (os_OpenFile rt path (Logger.world s)) as [[f'|err] w2]; exact H.
Qed.

Lemma do_calls_console_ready (cs : list Call) (s : Logger.State) :
  console_ready (Logger.self s) = true ->
  console_ready (Logger.self (snd (do_calls rt cs s))) = true.
Proof.
  revert s. induction cs as [ | c cs IH ]; intros s H; simpl; [ exact H | ].
  pose proof (do_call_console_ready c s H) as H1. unfold Logger.bind.
  destruct (do_call rt c s) as [[r|] s1]; simpl in *; [ apply IH | ]; exact H1.
Qed.

(** Whatever the options do, a logger [NewLogger] returns has its five
    console loggers, and no later call takes them away: the theorems on
    passing calls apply to every state a program can reach. *)
Lemma NewLogger_console_ready (opts : list Option) (w : World) l w0 :
  NewLogger rt opts w = (Some (inl l), w0) ->
  forall cs,
  console_ready
    (Logger.self (snd (do_calls rt cs {| Logger.self := l; Logger.world := w0 |})))
  = true.
Proof.
  intros Hnew cs. apply do_calls_console_ready. simpl.
  revert Hnew. unfold NewLogger, construct. unfold Logger.bind at 1.
  destruct (apply_options opts {| Logger.self := defaults; Logger.world := w |})
    as [[[]|] s1]; [ | discriminate ].
  unfold_monad. simpl.
  destruct (negb (String.eqb (Logger.filePath (Logger.self s1)) "")); simpl.
  - match goal with
    | |- context [os_OpenFile ?r ?p ?x] =>
      destruct (os_OpenFile r p x) as [[f|err] w2]
    end; simpl; intros E; inversion E; reflexivity.
  - intros E. inversion E. reflexivity.
Qed.

End ConsoleReady.

(** * The theorems at work on the example runtime *)

Lemma info_is_leveled : In Example.info (leveled Example.rt).
Proof. simpl. right. left. reflexivity. Defined.

Lemma below_threshold_no_effect_witness :
  INFO < Logger.level (Logger.self Example.console_only)
  /\ Logger.Info Example.rt "ready %d" [AInt 1] Example.console_only
     = (Some tt, Example.console_only).
Proof.
  assert (H : INFO < Logger.level (Logger.self Example.console_only))
    by reflexivity.
  split; [ exact H | ].
  exact (below_threshold_no_effect Example.rt INFO Logger.infoLogger "INFO"
           (Logger.Info Example.rt) info_is_leveled "ready %d" [AInt 1]
           Example.console_only H).
Defined.

Lemma Fatal_above_FATAL_returns_witness :
  FATAL < 9
  /\ Logger.bind (Logger.SetLevel 9) (fun _ => Logger.Fatal Example.rt "bye" [])
       Example.plain
     = (Some tt,
        {| Logger.self := Logger.set_level 9 (Logger.self Example.plain);
           Logger.world := Logger.world Example.plain |}).
Proof.
  assert (H : FATAL < 9) by reflexivity.
  split; [ exact H | ].
  exact (proj1 (proj2 (Fatal_above_FATAL_returns Example.rt 9 "bye" []
                         Example.plain H))).
Defined.

Lemma mutators_change_own_field_only_witness :
  FLogFile <> FLevel
  /\ field_eq FLogFile
       (Logger.self (snd (Logger.SetLevel ERROR Example.plain)))
       (Logger.self Example.plain).
Proof.
  assert (H : FLogFile <> FLevel) by discriminate.
  split; [ exact H | ].
  exact (proj2 (proj2 (proj2
           (proj1 (mutators_change_own_field_only Example.plain FLogFile) ERROR)))
           H).
Defined.



Lemma message_interpolated_iff_operands_witness :
  Logger.level (Logger.self Example.plain) <= INFO
  /\ Logger.infoLogger (Logger.self Example.plain) = Some Example.info_logger
  /\ console (Logger.world
                (snd (Logger.Info Example.rt "100% done" [] Example.plain)))
     = console (Logger.world Example.plain)
       ++ [(Stdout, "[INFO] 12:00:00 100% done" +:+ nl)].
Proof.
  assert (H1 : Logger.level (Logger.self Example.plain) <= INFO)
    by (vm_compute; discriminate).
  assert (H2 : Logger.infoLogger (Logger.self Example.plain)
               = Some Example.info_logger) by reflexivity.
  split; [ exact H1 | ]. split; [ exact H2 | ].
  exact (proj1 (message_interpolated_iff_operands Example.rt INFO
                  Logger.infoLogger "INFO" (Logger.Info Example.rt)
                  info_is_leveled "100% done" [] Example.plain
                  Example.info_logger H1 H2)).
Defined.

Lemma plain_mode_file_line_witness :
  Logger.level (Logger.self Example.plain) <= INFO
  /\ Logger.infoLogger (Logger.self Example.plain) = Some Example.info_logger
  /\ Logger.jsonMode (Logger.self Example.plain) = false
  /\ sink_open Example.plain = true
  /\ file_content
       (Logger.world
          (snd (Logger.Info Example.rt "started %s" [AString "svc"] Example.plain)))
       "app.log"
     = ["2006-01-02 15:04:05@1700000000 [INFO] started svc (main.go:42)" +:+ nl].
Proof.
  assert (H1 : Logger.level (Logger.self Example.plain) <= INFO)
    by (vm_compute; discriminate).
  assert (H2 : Logger.infoLogger (Logger.self Example.plain)
               = Some Example.info_logger) by reflexivity.
  assert (H3 : Logger.jsonMode (Logger.self Example.plain) = false) by reflexivity.
  assert (H4 : sink_open Example.plain = true) by reflexivity.
  split; [ exact H1 | ]. split; [ exact H2 | ]. split; [ exact H3 | ].
  split; [ exact H4 | ].
  destruct (plain_mode_file_line Example.rt INFO Logger.infoLogger "INFO"
              (Logger.Info Example.rt) info_is_leveled "started %s"
              [AString "svc"] Example.plain Example.info_logger H1 H2 H3 H4)
    as (f & e & Hf & He & Hd).
  injection Hf as <-. injection He as <-.
  unfold file_content. rewrite Hd, lookup_insert_eq. reflexivity.
Defined.

Lemma json_mode_file_record_witness :
  Logger.level (Logger.self Example.structured) <= INFO
  /\ Logger.infoLogger (Logger.self Example.structured) = Some Example.info_logger
  /\ Logger.jsonMode (Logger.self Example.structured) = true
  /\ sink_open Example.structured = true
  /\ exists rec,
       file_content
         (Logger.world (snd (Logger.Info Example.rt "a<b" [] Example.structured)))
         "app.log" = [rec]
       /\ json.Unmarshal_line rec
          = Some [("level", "INFO"); ("msg", "a<b");
                  ("time", "2006-01-02 15:04:05@1700000000")].
Proof.
  assert (H1 : Logger.level (Logger.self Example.structured) <= INFO)
    by (vm_compute; discriminate).
  assert (H2 : Logger.infoLogger (Logger.self Example.structured)
               = Some Example.info_logger) by reflexivity.
  assert (H3 : Logger.jsonMode (Logger.self Example.structured) = true)
    by reflexivity.
  assert (H4 : sink_open Example.structured = true) by reflexivity.
  split; [ exact H1 | ]. split; [ exact H2 | ]. split; [ exact H3 | ].
  split; [ exact H4 | ].
  destruct (json_mode_file_record Example.rt INFO Logger.infoLogger "INFO"
              (Logger.Info Example.rt) info_is_leveled "a<b" []
              Example.structured Example.info_logger H1 H2 H3 H4)
    as (f & e & rec & Hf & He & Hd & _ & _ & Hparse & _).
  injection Hf as <-. injection He as <-.
  exists rec. split; [ | exact Hparse ].
  unfold file_content. rewrite Hd, lookup_insert_eq. reflexivity.
Defined.

Lemma at_most_one_open_file_witness :
  open_files Example.boot = []
  /\ forall cs,
       (length (open_files
                  (Logger.world
                     (snd (do_calls Example.rt cs
                             (Example.started
                                (map option_of [SFilePath "app.log"]))))))
        <= 1)%nat.
Proof.
  assert (H : open_files Example.boot = []) by reflexivity.
  split; [ exact H | ]. intros cs.
  pose proof (at_most_one_open_file Example.rt [SFilePath "app.log"]
                Example.boot H) as Hthm.
  unfold Example.started.
  destruct (NewLogger Example.rt (map option_of [SFilePath "app.log"]) Example.boot)
    as [[[l | err] | ] w0] eqn:E.
  - exact (proj1 (proj2 (Hthm cs))).
  - vm_compute in E. discriminate E.
  - contradiction.
Defined.

Lemma Close_second_call_is_an_error_witness :
  sink_open Example.plain = true
  /\ fst (Logger.Close Example.plain) = Some None
  /\ fst (Logger.Close (snd (Logger.Close Example.plain)))
     = Some (Some (ErrClosed 0%nat)).
Proof.
  assert (H : sink_open Example.plain = true) by reflexivity.
  split; [ exact H | ].
  destruct (proj2 (proj2 (Close_second_call_is_an_error Example.plain)) H)
    as (f & Hf & H1 & _ & H2).
  injection Hf as <-. split; [ exact H1 | exact H2 ].
Defined.


(** The scenario of a threshold at [INFO] with a file sink: [Debug] leaves
    no mark, [Info] with one operand prints one line and appends one. *)
Example threshold_INFO_scenario :
  let s0 := Example.started [WithFilePath "app.log"; WithLevel INFO] in
  let s1 := snd (Logger.Debug Example.rt "x" [] s0) in
  let s2 := snd (Logger.Info Example.rt "started %s" [AString "svc"] s1) in
  s1 = s0
  /\ console (Logger.world s2) = [(Stdout, "[INFO] 12:00:00 started svc" +:+ nl)]
  /\ file_content (Logger.world s2) "app.log"
     = ["2006-01-02 15:04:05@1700000000 [INFO] started svc" +:+ nl].
Proof. vm_compute. repeat split. Qed.

(** A template with a percent sign and no operand is logged as it is. *)
Example percent_without_operands :
  console (Logger.world
             (snd (Logger.Warning Example.rt "100% done" [] Example.plain)))
  = [(Stdout, "[WARNING] 12:00:00 100% done" +:+ nl)]
  /\ filter is_Sprintf
       (trace (Logger.world
                 (snd (Logger.Warning Example.rt "100% done" [] Example.plain))))
     = [].
Proof. vm_compute. repeat split. Qed.

(** A message of two lines is one structured record on one line, and
    reads back as the two lines. *)
Example two_line_message_one_record :
  let msg := "first" +:+ nl +:+ "second" in
  let s := snd (Logger.Error Example.rt msg [] Example.structured) in
  exists rec,
    file_content (Logger.world s) "app.log" = [rec]
    /\ json.Unmarshal_line rec
       = Some [("level", "ERROR"); ("msg", msg);
               ("time", "2006-01-02 15:04:05@1700000000")].
Proof. vm_compute. eexists. split; reflexivity. Qed.

(** [Fatal] at the default threshold prints, writes and leaves the process. *)
Example Fatal_exits :
  let r := Logger.Fatal Example.rt "bye" [] Example.plain in
  fst r = None
  /\ last (trace (Logger.world (snd r))) = Some (EvExit 1)
  /\ length (console (Logger.world (snd r))) = 1%nat
  /\ length (file_content (Logger.world (snd r)) "app.log") = 1%nat.
Proof. vm_compute. repeat split. Qed.

(** * Construction *)

Lemma with_NoColor_id (w : World) : with_NoColor (color_NoColor w) w = w.
Proof. destruct w; reflexivity. Qed.

Lemma apply_options_app (o1 o2 : list Option) (s : Logger.State) :
  apply_options (o1 ++ o2) s
  = Logger.bind (apply_options o1) (fun _ => apply_options o2) s.
Proof.
  revert s. induction o1 as [ | o o1 IH ]; intros s; simpl.
  - reflexivity.
  - unfold Logger.bind.
    destruct (o s) as [[[]|] s1]; [ | reflexivity ].
    rewrite IH. reflexivity.
Qed.

Lemma bind_eq_at {A B : Type} (m m' : Logger.M A) (k : A -> Logger.M B)
  (s : Logger.State) :
  m s = m' s -> Logger.bind m k s = Logger.bind m' k s.
Proof. intros H. unfold Logger.bind. rewrite H. reflexivity. Qed.

(** The options of the package only assign: they return, touch nothing of
    the world but [color.NoColor], and leave the last value of each kind. *)
Lemma apply_options_settings (ss : list Setting) (s : Logger.State) :
  let r := apply_options (map option_of ss) s in
  fst r = Some tt
  /\ Logger.world (snd r)
     = with_NoColor (final_NoColor ss (color_NoColor (Logger.world s)))
         (Logger.world s)
  /\ Logger.filePath (Logger.self (snd r))
     = final_path ss (Logger.filePath (Logger.self s))
  /\ Logger.out (Logger.self (snd r)) = final_out ss (Logger.out (Logger.self s))
  /\ Logger.logFile (Logger.self (snd r)) = Logger.logFile (Logger.self s).
Proof.
  revert s. induction ss as [ | x ss IH ]; intros s; simpl.
  - rewrite with_NoColor_id. repeat split.
  - unfold Logger.bind.
    assert (Hx : exists s1,
      option_of x s = (Some tt, s1)
      /\ Logger.world s1
         = match x with
           | SColors enable => with_NoColor (negb enable) (Logger.world s)
           | _ => Logger.world s
           end
      /\ Logger.filePath (Logger.self s1)
         = match x with
           | SFilePath q => q
           | _ => Logger.filePath (Logger.self s)
           end
      /\ Logger.out (Logger.self s1)
         = match x with
           | SWriter (Some o) => o
           | _ => Logger.out (Logger.self s)
           end
      /\ Logger.logFile (Logger.self s1) = Logger.logFile (Logger.self s)).
    { destruct x as [ q | [o|] | lv | | layout | en | en ]; simpl; step_methods;
        try destruct (String.eqb layout ""); simpl;
        eexists; (split; [ reflexivity | ]); repeat split;
        destruct s as [l w]; reflexivity. }
    destruct Hx as (s1 & -> & Hw & Hp & Ho & Hl).
    destruct (IH s1) as (H1 & H2 & H3 & H4 & H5).
    split; [ exact H1 | ].
    rewrite H2, H3, H4, H5, Hw, Hp, Ho, Hl.
    destruct x as [ q | [o|] | lv | | layout | en | en ]; repeat split.
Qed.

Section Construction.

Variable rt : Runtime.

(** [NewLogger] on the package's options, step by step. *)
Lemma NewLogger_settings (ss : list Setting) (w : World) :
  let s1 := snd (apply_options (map option_of ss)
                   {| Logger.self := defaults; Logger.world := w |}) in
  let w1 := with_NoColor (env_NoColor w (final_NoColor ss (color_NoColor w))) w in
  let l1 := init_console rt w1 (Logger.self s1) in
  let path := final_path ss "" in
  NewLogger rt (map option_of ss) w
  = if String.eqb path "" then (Some (inl l1), w1)
    else if can_open rt path
         then (Some (inl (Logger.set_logFile (Some (length (files w))) l1)),
               snd (os_OpenFile rt path w1))
         else (Some (inr (ErrOpen path)),
               emit (EvOpenFile path (inr (ErrOpen path))) w1).
Proof.
  cbv zeta. set (path := final_path ss "").
  set (w1 := with_NoColor (env_NoColor w (final_NoColor ss (color_NoColor w))) w).
  pose proof (apply_options_settings ss
                {| Logger.self := defaults; Logger.world := w |}) as H.
  cbv zeta in H. unfold NewLogger, construct. unfold Logger.bind at 1.
  destruct (apply_options (map option_of ss)
              {| Logger.self := defaults; Logger.world := w |}) as [o s1].
  simpl in H. destruct H as (-> & Hw & Hp & _ & _).
  unfold_monad. simpl. rewrite Hw, Hp. fold path.
  assert (Hw1 : (if negb (String.eqb (os_Getenv "FORCE_COLOR"
                     (with_NoColor (final_NoColor ss (color_NoColor w)) w)) "")
                 then with_NoColor false
                        (with_NoColor (final_NoColor ss (color_NoColor w)) w)
                 else if negb (String.eqb (os_Getenv "NO_COLOR"
                     (with_NoColor (final_NoColor ss (color_NoColor w)) w)) "")
                 then with_NoColor true
                        (with_NoColor (final_NoColor ss (color_NoColor w)) w)
                 else with_NoColor (final_NoColor ss (color_NoColor w)) w) = w1).
  { unfold w1, env_NoColor, os_Getenv. simpl.
    destruct (negb _); [ reflexivity | ]. destruct (negb _); reflexivity. }
  rewrite Hw1.
  destruct (String.eqb path ""); simpl; [ reflexivity | ].
  unfold os_OpenFile. destruct (can_open rt path); reflexivity.
Qed.

(** Opening creates the file when it is missing and never truncates it. *)
Lemma os_OpenFile_content (path : string) (w : World) (name : string) :
  file_content (snd (os_OpenFile rt path w)) name = file_content w name.
Proof.
  unfold os_OpenFile. destruct (can_open rt path); [ | reflexivity ].
  unfold file_content. simpl.
  destruct (disk w !! path) eqn:E; [ reflexivity | ].
  destruct (String.eqb_spec path name) as [<- | Hne].
  - rewrite lookup_insert_eq, E. reflexivity.
  - rewrite lookup_insert_ne by exact Hne. reflexivity.
Qed.

(** X1. [NewLogger] on the package's options always returns, and returns
    an error in one case only: the last [WithFilePath] gave a path that is
    not empty and cannot be opened.  The error is the one of the open, no
    logger is returned, and no file was opened or written. *)
Theorem NewLogger_fails_only_on_open :
  forall (ss : list Setting) (w : World),
  let path := final_path ss "" in
  let r := NewLogger rt (map option_of ss) w in
  match fst r with
  | Some (inr err) =>
    err = ErrOpen path /\ path <> "" /\ can_open rt path = false
    /\ files (snd r) = files w /\ disk (snd r) = disk w
  | Some (inl l) => path = "" \/ can_open rt path = true
  | None => False
  end.
Proof.
  intros ss w path r. unfold r. rewrite NewLogger_settings. fold path.
  destruct (String.eqb_spec path "") as [He | Hne]; simpl; [ left; exact He | ].
  destruct (can_open rt path) eqn:Hc; simpl; [ right; reflexivity | ].
  repeat split. exact Hne.
Qed.

(** X2. When the last [WithFilePath] gave a path that can be opened,
    [NewLogger] returns a logger whose sink is a new open file of that
    path.  The file exists afterwards: it is created, empty, if it was
    missing, and the disk is as it was otherwise; every file keeps what
    it held. *)
Theorem NewLogger_opens_file :
  forall (ss : list Setting) (w : World),
  final_path ss "" <> "" -> can_open rt (final_path ss "") = true ->
  let r := NewLogger rt (map option_of ss) w in
  exists l,
    fst r = Some (inl l)
    /\ Logger.logFile l = Some (length (files w))
    /\ Logger.filePath l = final_path ss ""
    /\ files (snd r)
       = files w ++ [{| f_name := final_path ss ""; f_closed := false |}]
    /\ sink_open {| Logger.self := l; Logger.world := snd r |} = true
    /\ disk (snd r)
       = match disk w !! final_path ss "" with
         | Some _ => disk w
         | None => <[final_path ss "" := []]> (disk w)
         end
    /\ is_Some (disk (snd r) !! final_path ss "")
    /\ (forall name, file_content (snd r) name = file_content w name).
Proof.
  intros ss w Hne Hc r. unfold r. rewrite NewLogger_settings.
  destruct (String.eqb_spec (final_path ss "") "") as [He | _]; [ congruence | ].
  rewrite Hc. eexists. split; [ reflexivity | ]. simpl.
  destruct (apply_options_settings ss
              {| Logger.self := defaults; Logger.world := w |})
    as (_ & _ & Hp & _ & _). simpl in Hp.
  destruct (os_OpenFile_ok rt (final_path ss "")
              (with_NoColor
                 (env_NoColor w (final_NoColor ss (color_NoColor w))) w) Hc)
    as [_ Hfiles]. simpl in Hfiles.
  split; [ reflexivity | ]. split; [ exact Hp | ]. split; [ exact Hfiles | ].
  assert (Hdisk :
    disk (snd (os_OpenFile rt (final_path ss "")
                 (with_NoColor
                    (env_NoColor w (final_NoColor ss (color_NoColor w))) w)))
    = match disk w !! final_path ss "" with
      | Some _ => disk w
      | None => <[final_path ss "" := []]> (disk w)
      end).
  { unfold os_OpenFile. rewrite Hc. reflexivity. }
  split; [ | split; [ exact Hdisk | split ] ].
  - unfold sink_open, is_open. simpl. rewrite Hfiles.
    rewrite list_lookup_middle by reflexivity. reflexivity.
  - rewrite Hdisk. destruct (disk w !! final_path ss "") as [c|] eqn:E.
    + rewrite E. eexists. reflexivity.
    + rewrite lookup_insert_eq. eexists. reflexivity.
  - intros name. rewrite os_OpenFile_content. reflexivity.
Qed.

(** X3. Without a file path (none given, or the last one empty)
    [NewLogger] returns a logger with no sink and leaves the world as it
    was but for [color.NoColor]: no file is opened, created or written. *)
Theorem NewLogger_without_path :
  forall (ss : list Setting) (w : World),
  final_path ss "" = "" ->
  let r := NewLogger rt (map option_of ss) w in
  exists l,
    fst r = Some (inl l)
    /\ Logger.logFile l = None
    /\ snd r = with_NoColor (env_NoColor w (final_NoColor ss (color_NoColor w))) w.
Proof.
  intros ss w He r. unfold r. rewrite NewLogger_settings, He. simpl.
  eexists. split; [ reflexivity | ]. split; [ | reflexivity ]. simpl.
  destruct (apply_options_settings ss
              {| Logger.self := defaults; Logger.world := w |})
    as (_ & _ & _ & _ & Hl). exact Hl.
Qed.

(** X4. In a logger [NewLogger] returns, the five console loggers print
    to the destination of the last non-nil [WithWriter] (standard output
    without one), with the flag [Ltime] and the tag of their level: cyan
    for INFO, red for ERROR, green for DEBUG, yellow for WARNING, magenta
    for FATAL.  The tag is coloured unless [color.NoColor] holds when the
    logger is built: false if FORCE_COLOR is set, else true if NO_COLOR is
    set, else what the last [WithColors] option left. *)
Theorem NewLogger_console_loggers :
  forall (ss : list Setting) (w : World) l w',
  NewLogger rt (map option_of ss) w = (Some (inl l), w') ->
  let o := final_out ss Stdout in
  let nc := env_NoColor w (final_NoColor ss (color_NoColor w)) in
  Logger.out l = o
  /\ color_NoColor w' = nc
  /\ Logger.infoLogger l = Some (console_logger rt o nc Cyan "[INFO] ")
  /\ Logger.errorLogger l = Some (console_logger rt o nc Red "[ERROR] ")
  /\ Logger.debugLogger l = Some (console_logger rt o nc Green "[DEBUG] ")
  /\ Logger.warningLogger l = Some (console_logger rt o nc Yellow "[WARNING] ")
  /\ Logger.fatalLogger l = Some (console_logger rt o nc Magenta "[FATAL] ").
Proof.
  intros ss w l w' Hnew o nc. rewrite NewLogger_settings in Hnew.
  destruct (apply_options_settings ss
              {| Logger.self := defaults; Logger.world := w |})
    as (_ & _ & _ & Ho & _). simpl in Ho. fold o in Ho.
  destruct (String.eqb (final_path ss "") "").
  - injection Hnew as <- <-. simpl. rewrite Ho. repeat split.
  - destruct (can_open rt (final_path ss "")) eqn:Hc; [ | discriminate Hnew ].
    injection Hnew as <- <-. simpl. rewrite Ho.
    unfold os_OpenFile. rewrite Hc. repeat split.
Qed.

(** After the options ran, [NewLogger] assigns the console loggers and
    [logFile] only. *)
Lemma NewLogger_keeps_config (opts : list Option) (w : World) l w' :
  NewLogger rt opts w = (Some (inl l), w') ->
  exists s1,
    apply_options opts {| Logger.self := defaults; Logger.world := w |}
    = (Some tt, s1)
    /\ forall fld, is_config fld = true -> field_eq fld l (Logger.self s1).
Proof.
  unfold NewLogger, construct. unfold Logger.bind at 1.
  destruct (apply_options opts {| Logger.self := defaults; Logger.world := w |})
    as [[[]|] s1]; [ | discriminate ].
  intros H. exists s1. split; [ reflexivity | ].
  revert H. unfold_monad. simpl.
  destruct (negb (String.eqb (Logger.filePath (Logger.self s1)) "")); simpl.
  - match goal with
    | |- context [os_OpenFile ?r ?p ?x] =>
      destruct (os_OpenFile r p x) as [[f|err] w2]
    end; simpl; intros E; inversion E; subst.
    intros fld Hf. destruct fld; try discriminate Hf; reflexivity.
  - intros E. inversion E. subst.
    intros fld Hf. destruct fld; try discriminate Hf; reflexivity.
Qed.

(** X5. An option given last decides its field, whatever the options
    before it are (any closures): the level, the caller flag, structured
    mode, a layout that is not empty, a writer that is not nil. *)
Theorem last_option_wins :
  forall (opts : list Option) (w : World),
  (forall lv l w',
     NewLogger rt (opts ++ [WithLevel lv]) w = (Some (inl l), w') ->
     Logger.level l = lv)
  /\ (forall enable l w',
     NewLogger rt (opts ++ [WithCaller enable]) w = (Some (inl l), w') ->
     Logger.withCaller l = enable)
  /\ (forall l w',
     NewLogger rt (opts ++ [WithJSON]) w = (Some (inl l), w') ->
     Logger.jsonMode l = true)
  /\ (forall layout l w',
     layout <> "" ->
     NewLogger rt (opts ++ [WithTimeFormat layout]) w = (Some (inl l), w') ->
     Logger.timeFormat l = layout)
  /\ (forall o l w',
     NewLogger rt (opts ++ [WithWriter (Some o)]) w = (Some (inl l), w') ->
     Logger.out l = o).
Proof.
  intros opts w.
  assert (Hlast : forall (x : Option) l w',
    NewLogger rt (opts ++ [x]) w = (Some (inl l), w') ->
    exists s0 s1,
      x s0 = (Some tt, s1)
      /\ forall fld, is_config fld = true -> field_eq fld l (Logger.self s1)).
  { intros x l w' H.
    destruct (NewLogger_keeps_config _ _ _ _ H) as (s1 & Hrun & Hcfg).
    rewrite apply_options_app in Hrun. unfold Logger.bind in Hrun.
    destruct (apply_options opts {| Logger.self := defaults; Logger.world := w |})
      as [[[]|] s0]; [ | discriminate ].
    simpl in Hrun. unfold Logger.bind, Logger.ret in Hrun.
    destruct (x s0) as [[[]|] s1'] eqn:Ex; [ | discriminate ].
    injection Hrun as <-. exists s0, s1'. split; [ exact Ex | exact Hcfg ]. }
  repeat split.
  - intros lv l w' H. destruct (Hlast _ _ _ H) as (s0 & s1 & Hx & Hcfg).
    rewrite (Hcfg FLevel eq_refl). revert Hx. step_methods.
    intros E. injection E as <-. reflexivity.
  - intros enable l w' H. destruct (Hlast _ _ _ H) as (s0 & s1 & Hx & Hcfg).
    rewrite (Hcfg FWithCaller eq_refl). revert Hx. step_methods.
    intros E. injection E as <-. reflexivity.
  - intros l w' H. destruct (Hlast _ _ _ H) as (s0 & s1 & Hx & Hcfg).
    rewrite (Hcfg FJsonMode eq_refl). revert Hx. step_methods.
    intros E. injection E as <-. reflexivity.
  - intros layout l w' Hne H.
    destruct (Hlast _ _ _ H) as (s0 & s1 & Hx & Hcfg).
    rewrite (Hcfg FTimeFormat eq_refl). revert Hx. step_methods.
    destruct (String.eqb_spec layout "") as [-> | _]; [ congruence | ]. simpl.
    intros E. injection E as <-. reflexivity.
  - intros o l w' H. destruct (Hlast _ _ _ H) as (s0 & s1 & Hx & Hcfg).
    rewrite (Hcfg FOut eq_refl). revert Hx. step_methods.
    intros E. injection E as <-. reflexivity.
Qed.

(** X6. [WithTimeFormat] of the empty layout and [WithWriter] of a nil
    writer are ignored: [NewLogger] gives the same result with and
    without them, wherever they stand among the options. *)
Theorem empty_options_are_ignored :
  forall (o1 o2 : list Option) (w : World),
  NewLogger rt (o1 ++ WithTimeFormat "" :: o2) w = NewLogger rt (o1 ++ o2) w
  /\ NewLogger rt (o1 ++ WithWriter None :: o2) w = NewLogger rt (o1 ++ o2) w.
Proof.
  intros o1 o2 w.
  assert (H : forall (x : Option), (forall s, x s = (Some tt, s)) ->
    NewLogger rt (o1 ++ x :: o2) w = NewLogger rt (o1 ++ o2) w).
  { intros x Hx. unfold NewLogger, construct.
    rewrite (bind_eq_at (apply_options (o1 ++ x :: o2)) (apply_options (o1 ++ o2)));
      [ reflexivity | ].
    rewrite !apply_options_app. unfold Logger.bind.
    destruct (apply_options o1 {| Logger.self := defaults; Logger.world := w |})
      as [[[]|] s0]; [ | reflexivity ].
    simpl. unfold Logger.bind. rewrite Hx. reflexivity. }
  split; apply H; intros s; reflexivity.
Qed.

(** X7. A field no option assigns keeps its default: threshold DEBUG,
    standard output, no file path, the layout [2006-01-02 15:04:05], no
    caller, plain mode. *)
Theorem untouched_fields_keep_defaults :
  forall (ss : list Setting) (w : World) l w' fld,
  NewLogger rt (map option_of ss) w = (Some (inl l), w') ->
  is_config fld = true ->
  forallb (fun x => negb (sets_field fld x)) ss = true ->
  field_eq fld l defaults.
Proof.
  intros ss w l w' fld Hnew Hcfg Hnone.
  destruct (NewLogger_keeps_config _ _ _ _ Hnew) as (s1 & Hrun & Hkeep).
  assert (Hopts : forall s s',
    apply_options (map option_of ss) s = (Some tt, s') ->
    field_eq fld (Logger.self s') (Logger.self s)).
  { clear Hrun Hkeep Hnew. induction ss as [ | x ss IH ]; intros s s' H.
    - simpl in H. injection H as <-. destruct fld; reflexivity.
    - simpl in Hnone. apply andb_prop in Hnone as [Hx Hss].
      simpl in H. unfold Logger.bind in H.
      destruct (option_of x s) as [[[]|] s0] eqn:Ex; [ | discriminate ].
      specialize (IH Hss s0 s' H).
      assert (H0 : field_eq fld (Logger.self s0) (Logger.self s)).
      { clear IH H. destruct fld; try discriminate Hcfg;
          destruct x as [ q | [o|] | lv | | layout | en | en ];
          simpl in Hx; try discriminate Hx;
          revert Ex; simpl; step_methods;
          try (destruct (String.eqb layout ""); try discriminate Hx);
          intros E; injection E as <-; reflexivity. }
      destruct fld; simpl in *; congruence. }
  specialize (Hkeep fld Hcfg). specialize (Hopts _ _ Hrun). simpl in Hopts.
  destruct fld; simpl in *; congruence.
Qed.

End Construction.

Lemma NewLogger_opens_file_witness :
  final_path [SLevel INFO; SFilePath "app.log"] "" <> ""
  /\ can_open Example.rt (final_path [SLevel INFO; SFilePath "app.log"] "") = true
  /\ exists l,
       fst (NewLogger Example.rt
              (map option_of [SLevel INFO; SFilePath "app.log"]) Example.boot)
       = Some (inl l)
       /\ Logger.logFile l = Some 0%nat
       /\ disk Example.boot !! "app.log" = None
       /\ disk (snd (NewLogger Example.rt
                       (map option_of [SLevel INFO; SFilePath "app.log"])
                       Example.boot)) !! "app.log" = Some [].
Proof.
  assert (H1 : final_path [SLevel INFO; SFilePath "app.log"] "" <> "")
    by discriminate.
  assert (H2 : can_open Example.rt
                 (final_path [SLevel INFO; SFilePath "app.log"] "") = true)
    by reflexivity.
  split; [ exact H1 | ]. split; [ exact H2 | ].
  destruct (NewLogger_opens_file Example.rt [SLevel INFO; SFilePath "app.log"]
              Example.boot H1 H2) as (l & Hl & Hf & _ & _ & _ & Hd & _).
  exists l. split; [ exact Hl | ]. split; [ exact Hf | ].
  split; [ reflexivity | ]. rewrite Hd. reflexivity.
Defined.

Lemma NewLogger_without_path_witness :
  final_path [SFilePath "app.log"; SFilePath ""] "" = ""
  /\ exists l,
       fst (NewLogger Example.rt
              (map option_of [SFilePath "app.log"; SFilePath ""]) Example.boot)
       = Some (inl l)
       /\ Logger.logFile l = None.
Proof.
  assert (H : final_path [SFilePath "app.log"; SFilePath ""] "" = "")
    by reflexivity.
  split; [ exact H | ].
  destruct (NewLogger_without_path Example.rt
              [SFilePath "app.log"; SFilePath ""] Example.boot H)
    as (l & Hl & Hf & _).
  exists l. split; [ exact Hl | exact Hf ].
Defined.

Lemma NewLogger_console_loggers_witness :
  exists l w',
    NewLogger Example.rt (map option_of [SWriter (Some (UserWriter 7)); SColors true])
      Example.boot = (Some (inl l), w')
    /\ Logger.errorLogger l
       = Some (log_New (UserWriter 7)
                 (color_wrap Example.rt Red "[ERROR] ") log_Ltime).
Proof.
  eexists. eexists.
  assert (H : NewLogger Example.rt
                (map option_of [SWriter (Some (UserWriter 7)); SColors true])
                Example.boot
              = (Some (inl _), _)) by reflexivity.
  split; [ exact H | ].
  exact (proj1 (proj2 (proj2 (proj2
           (NewLogger_console_loggers Example.rt _ _ _ _ H))))).
Defined.

Lemma last_option_wins_witness :
  exists l w',
    NewLogger Example.rt [WithLevel ERROR; WithLevel INFO] Example.boot
    = (Some (inl l), w')
    /\ Logger.level l = INFO.
Proof.
  eexists. eexists.
  assert (H : NewLogger Example.rt ([WithLevel ERROR] ++ [WithLevel INFO])
                Example.boot = (Some (inl _), _)) by reflexivity.
  split; [ exact H | ].
  exact (proj1 (last_option_wins Example.rt [WithLevel ERROR] Example.boot)
           INFO _ _ H).
Defined.

Lemma untouched_fields_keep_defaults_witness :
  exists l w',
    NewLogger Example.rt (map option_of [SJSON; STimeFormat ""]) Example.boot
    = (Some (inl l), w')
    /\ is_config FTimeFormat = true
    /\ forallb (fun x => negb (sets_field FTimeFormat x)) [SJSON; STimeFormat ""]
       = true
    /\ field_eq FTimeFormat l defaults.
Proof.
  eexists. eexists.
  assert (H : NewLogger Example.rt (map option_of [SJSON; STimeFormat ""])
                Example.boot = (Some (inl _), _)) by reflexivity.
  split; [ exact H | ]. split; [ reflexivity | ]. split; [ reflexivity | ].
  exact (untouched_fields_keep_defaults Example.rt [SJSON; STimeFormat ""]
           Example.boot _ _ FTimeFormat H eq_refl eq_refl).
Defined.

(** * Calls at run time *)

Lemma blind_ret {A : Type} (a : A) : color_blind (Logger.ret a).
Proof. intros b s. reflexivity. Qed.

Lemma blind_bind {A B : Type} (m : Logger.M A) (k : A -> Logger.M B) :
  color_blind m -> (forall a, color_blind (k a)) -> color_blind (Logger.bind m k).
Proof.
  intros Hm Hk b s. unfold Logger.bind. rewrite Hm.
  destruct (m s) as [[a|] s1]; simpl; [ apply Hk | reflexivity ].
Qed.

Lemma blind_get_self : color_blind Logger.get_self.
Proof. intros b s. reflexivity. Qed.

Lemma blind_read {A : Type} (f : World -> A) :
  (forall b w, f (with_NoColor b w) = f w) -> color_blind (Logger.read f).
Proof. intros H b s. unfold Logger.read. simpl. rewrite H. reflexivity. Qed.

Lemma blind_effect (f : World -> World) :
  (forall b w, f (with_NoColor b w) = with_NoColor b (f w)) ->
  color_blind (Logger.effect f).
Proof. intros H b s. unfold Logger.effect, recolor. simpl. rewrite H. reflexivity. Qed.

Lemma blind_call {A : Type} (f : World -> A * World) :
  (forall b w, f (with_NoColor b w) = (fst (f w), with_NoColor b (snd (f w)))) ->
  color_blind (Logger.call f).
Proof.
  intros H b s. unfold Logger.call, recolor. simpl. rewrite H.
  destruct (f (Logger.world s)). reflexivity.
Qed.

Lemma blind_os_Exit (code : Z) : color_blind (Logger.os_Exit code).
Proof. intros b s. reflexivity. Qed.

Lemma blind_panic {A : Type} (why : string) : color_blind (@Logger.panic A why).
Proof. intros b s. reflexivity. Qed.

Lemma blind_File_Write (f : File) (data : string) :
  color_blind (Logger.call (File_Write f data)).
Proof.
  apply blind_call. intros b w. unfold File_Write. simpl.
  destruct (files w !! f) as [e|]; [ destruct (f_closed e) | ]; reflexivity.
Qed.

Ltac blind :=
  repeat first
    [ apply blind_ret | apply blind_get_self | apply blind_os_Exit
    | apply blind_panic | apply blind_File_Write
    | apply blind_read; intros ? ?; reflexivity
    | apply blind_effect; intros ? ?; reflexivity
    | apply blind_bind; [ | intros ? ]
    | match goal with
      | |- color_blind (if ?c then _ else _) => destruct c
      | |- color_blind (match ?x with _ => _ end) => destruct x
      end ].

Section RunTime.

Variable rt : Runtime.

(** A call below the threshold returns with the state it was given. *)
Lemma gated_call sev cl name m :
  In (sev, cl, name, m) (leveled rt) ->
  forall msg v s, sev < Logger.level (Logger.self s) ->
  m msg v s = (Some tt, s).
Proof.
  intros Hin msg v s Hlt. simpl in Hin.
  repeat (destruct Hin as [Hin | Hin];
          [ inversion Hin; subst; clear Hin; step_methods;
            rewrite gtb_of_lt by exact Hlt; reflexivity | ]).
  contradiction.
Qed.

Lemma blind_log (level : LogLevel) (msg : string) :
  color_blind (Logger.log rt level msg).
Proof.
  unfold Logger.log, Logger.Println, json_Encode, fmt_Fprintln. blind.
Qed.

Lemma blind_leveled sev cl name m :
  In (sev, cl, name, m) (leveled rt) -> forall msg v, color_blind (m msg v).
Proof.
  intros Hin msg v. simpl in Hin.
  repeat (destruct Hin as [Hin | Hin];
    [ inversion Hin; subst; clear Hin | ]); try contradiction.
  all: unfold Logger.Debug, Logger.Info, Logger.Warning, Logger.Error,
         Logger.Fatal, Logger.Sprintf.
  all: apply blind_bind; [ apply blind_get_self | intros l ].
  all: match goal with |- color_blind (if ?c then _ else _) => destruct c end;
         [ apply blind_ret | ].
  all: apply blind_bind; [ blind | intros fullMsg ].
  all: try apply blind_log.
  all: apply blind_bind; [ apply blind_log | intros ? ]; apply blind_os_Exit.
Qed.

(** X8. [WithColors] at run time assigns the global [color.NoColor] and
    nothing else, and no leveled method reads it: the tags were coloured
    when the logger was built.  A call made after it returns the same and
    leaves the same logger, console, files, disk and trace as without it. *)
Theorem WithColors_changes_no_output :
  forall sev cl name m, In (sev, cl, name, m) (leveled rt) ->
  forall enable msg v s,
  let sc := snd (Logger.WithColors enable s) in
  Logger.self sc = Logger.self s
  /\ Logger.world sc = with_NoColor (negb enable) (Logger.world s)
  /\ fst (m msg v sc) = fst (m msg v s)
  /\ Logger.self (snd (m msg v sc)) = Logger.self (snd (m msg v s))
  /\ Logger.world (snd (m msg v sc))
     = with_NoColor (negb enable) (Logger.world (snd (m msg v s))).
Proof.
  intros sev cl name m Hin enable msg v s sc.
  split; [ reflexivity | ]. split; [ reflexivity | ].
  change sc with (recolor (negb enable) s).
  rewrite (blind_leveled sev cl name m Hin msg v (negb enable) s).
  repeat split.
Qed.

(** Without a sink [log] touches neither disk nor files. *)
Lemma log_no_sink (level : LogLevel) (msg : string) (s : Logger.State) :
  Logger.logFile (Logger.self s) = None ->
  disk (Logger.world (snd (Logger.log rt level msg s))) = disk (Logger.world s)
  /\ files (Logger.world (snd (Logger.log rt level msg s))) = files (Logger.world s).
Proof.
  intros Hnone. step_methods. rewrite Hnone.
  repeat match goal with
         | |- context [if ?c then _ else _] => destruct c; simpl
         | |- context [match ?x with _ => _ end] =>
           match type of x with
           | option log_Logger => destruct x; simpl
           end
         end; split; reflexivity.
Qed.

#[local] Arguments Logger.log : simpl never.

Lemma no_sink_no_write sev cl name m :
  In (sev, cl, name, m) (leveled rt) ->
  forall msg v s, Logger.logFile (Logger.self s) = None ->
  disk (Logger.world (snd (m msg v s))) = disk (Logger.world s)
  /\ files (Logger.world (snd (m msg v s))) = files (Logger.world s).
Proof.
  intros Hin msg v s Hnone. simpl in Hin.
  repeat (destruct Hin as [Hin | Hin];
    [ inversion Hin; subst; clear Hin | ]); try contradiction.
  all: unfold Logger.Debug, Logger.Info, Logger.Warning, Logger.Error, Logger.Fatal.
  all: unfold Logger.bind, Logger.get_self, Logger.Sprintf, Logger.effect,
         Logger.ret, Logger.os_Exit; cbv beta iota.
  all: destruct (Logger.level (Logger.self s) >? _); [ split; reflexivity | ].
  all: destruct v as [ | a v ]; simpl; unfold Logger.bind; simpl.
  all: match goal with
       | |- context [Logger.log rt ?lv ?x ?st] =>
         pose proof (log_no_sink lv x st Hnone) as Hlog;
         destruct (Logger.log rt lv x st) as [[[]|] s2]
       end; simpl in *; exact Hlog.
Qed.

(** X9. [DisableFile] without a sink returns and changes nothing, so a
    second [DisableFile] is a no-op.  After [DisableFile] [logFile] is nil,
    [Close] returns nil, and no leveled call touches a file. *)
Theorem DisableFile_is_idempotent :
  forall s,
  let s1 := snd (Logger.DisableFile s) in
  fst (Logger.DisableFile s) = Some tt
  /\ (Logger.logFile (Logger.self s) = None -> Logger.DisableFile s = (Some tt, s))
  /\ Logger.logFile (Logger.self s1) = None
  /\ Logger.DisableFile s1 = (Some tt, s1)
  /\ Logger.Close s1 = (Some None, s1)
  /\ (forall sev cl name m, In (sev, cl, name, m) (leveled rt) ->
      forall msg v,
      disk (Logger.world (snd (m msg v s1))) = disk (Logger.world s1)).
Proof.
  intros s s1.
  assert (Hnone : Logger.logFile (Logger.self s1) = None).
  { unfold s1. step_methods.
    destruct (Logger.logFile (Logger.self s)) as [f|] eqn:Hf; simpl;
      [ destruct (File_Close f (Logger.world s)); reflexivity | exact Hf ]. }
  split.
  { step_methods. destruct (Logger.logFile (Logger.self s)) as [f|]; simpl;
      [ destruct (File_Close f (Logger.world s)) | ]; reflexivity. }
  split.
  { intros H. step_methods. rewrite H. reflexivity. }
  split; [ exact Hnone | ].
  split.
  { step_methods. rewrite Hnone. reflexivity. }
  split.
  { step_methods. rewrite Hnone. reflexivity. }
  intros sev cl name m Hin msg v.
  apply (no_sink_no_write sev cl name m Hin msg v s1 Hnone).
Qed.

Lemma EnableFile_content :
  forall s path name,
  file_content (Logger.world (snd (Logger.EnableFile rt path s))) name
  = file_content (Logger.world s) name.
Proof.
  intros s path name. step_methods.
  assert (Hclose : forall f,
    disk (snd (File_Close f (Logger.world s))) = disk (Logger.world s)).
  { intros f. unfold File_Close.
    destruct (files (Logger.world s) !! f) as [e|]; [ destruct (f_closed e) | ];
      reflexivity. }
  destruct (Logger.logFile (Logger.self s)) as [f|]; simpl.
  - specialize (Hclose f).
    destruct (File_Close f (Logger.world s)) as [r0 w1]. simpl in *.
    pose proof (os_OpenFile_content rt path w1 name) as Ho.
    destruct (os_OpenFile rt path w1) as [[f'|err] w2]; simpl in *;
      rewrite Ho; unfold file_content; rewrite Hclose; reflexivity.
  - pose proof (os_OpenFile_content rt path (Logger.world s) name) as Ho.
    destruct (os_OpenFile rt path (Logger.world s)) as [[f'|err] w2];
      simpl in *; exact Ho.
Qed.

(** X10. [EnableFile] never loses what files hold: whether the open
    succeeds or fails, every file has the content it had ([O_APPEND], no
    truncation; a file that is created is empty). *)
Theorem EnableFile_keeps_contents :
  forall s path name,
  file_content (Logger.world (snd (Logger.EnableFile rt path s))) name
  = file_content (Logger.world s) name.
Proof. exact EnableFile_content. Qed.

(** X11. A failed [EnableFile] on a logger without sink returns the error
    of the open and leaves the logger without sink: no file is opened,
    and later leveled calls touch no file. *)
Theorem EnableFile_failure_without_sink :
  forall s path,
  Logger.logFile (Logger.self s) = None -> can_open rt path = false ->
  let r := Logger.EnableFile rt path s in
  fst r = Some (Some (ErrOpen path))
  /\ Logger.self (snd r) = Logger.self s
  /\ files (Logger.world (snd r)) = files (Logger.world s)
  /\ disk (Logger.world (snd r)) = disk (Logger.world s)
  /\ Logger.Close (snd r) = (Some None, snd r)
  /\ (forall sev cl name m, In (sev, cl, name, m) (leveled rt) ->
      forall msg v,
      disk (Logger.world (snd (m msg v (snd r)))) = disk (Logger.world (snd r))).
Proof.
  intros s path Hnone Hc r.
  assert (Hr : r = (Some (Some (ErrOpen path)),
                    {| Logger.self := Logger.self s;
                       Logger.world :=
                         emit (EvOpenFile path (inr (ErrOpen path)))
                           (Logger.world s) |})).
  { unfold r. step_methods. rewrite Hnone. simpl.
    rewrite os_OpenFile_fail by exact Hc. reflexivity. }
  rewrite Hr. simpl. repeat split.
  - step_methods. rewrite Hnone. reflexivity.
  - intros sev cl name m Hin msg v.
    exact (proj1 (no_sink_no_write sev cl name m Hin msg v
                    {| Logger.self := Logger.self s;
                       Logger.world :=
                         emit (EvOpenFile path (inr (ErrOpen path)))
                           (Logger.world s) |} Hnone)).
Qed.

Lemma emitted_now g name msg l w : now (emitted rt g name msg l w) = now w.
Proof.
  unfold emitted. destruct (Logger.logFile l) as [f|]; [ | reflexivity ].
  unfold File_Write. simpl.
  destruct (files w !! f) as [e|]; [ destruct (f_closed e) | ]; reflexivity.
Qed.

Lemma file_record_now l w w' name msg :
  now w = now w' -> file_record rt l w name msg = file_record rt l w' name msg.
Proof.
  intros H. unfold file_record, expected_entry, expected_plain_line.
  rewrite H. reflexivity.
Qed.

(** With an open sink the record goes to the file of the sink alone. *)
Lemma emitted_content_open g name msg l w f e nm :
  Logger.logFile l = Some f -> files w !! f = Some e -> f_closed e = false ->
  file_content (emitted rt g name msg l w) nm
  = if String.eqb nm (f_name e)
    then file_content w nm ++ [file_record rt l w name msg]
    else file_content w nm.
Proof.
  intros Hf He Hc. unfold file_content at 1.
  rewrite (emitted_disk_open rt g name msg l w f e Hf He Hc).
  destruct (String.eqb_spec nm (f_name e)) as [-> | Hne].
  - rewrite lookup_insert_eq. reflexivity.
  - rewrite lookup_insert_ne by congruence. reflexivity.
Qed.

Lemma leveled_cl_set_logFile sev cl name m :
  In (sev, cl, name, m) (leveled rt) ->
  forall x l, cl (Logger.set_logFile x l) = cl l.
Proof.
  intros Hin x l. simpl in Hin.
  repeat (destruct Hin as [Hin | Hin]; [ inversion Hin; reflexivity | ]).
  contradiction.
Qed.

(** A successful [EnableFile] leaves [logFile] on a new open file of the
    path and assigns nothing else. *)
Lemma EnableFile_opened (s : Logger.State) (path : string) :
  can_open rt path = true ->
  let r := Logger.EnableFile rt path s in
  exists n,
    fst r = Some None
    /\ Logger.self (snd r) = Logger.set_logFile (Some n) (Logger.self s)
    /\ files (Logger.world (snd r)) !! n
       = Some {| f_name := path; f_closed := false |}
    /\ now (Logger.world (snd r)) = now (Logger.world s).
Proof.
  intros Hc. step_methods.
  assert (Hnow : forall f,
    now (snd (File_Close f (Logger.world s))) = now (Logger.world s)).
  { intros f. unfold File_Close.
    destruct (files (Logger.world s) !! f) as [e|]; [ destruct (f_closed e) | ];
      reflexivity. }
  assert (Hopen : forall w1,
    let o := os_OpenFile rt path w1 in
    fst o = inl (length (files w1))
    /\ files (snd o) !! length (files w1)
       = Some {| f_name := path; f_closed := false |}
    /\ now (snd o) = now w1).
  { intros w1. destruct (os_OpenFile_ok rt path w1 Hc) as [Hr Hfiles].
    simpl. split; [ exact Hr | ]. split.
    - rewrite Hfiles, list_lookup_middle by reflexivity. reflexivity.
    - unfold os_OpenFile. rewrite Hc. reflexivity. }
  destruct (Logger.logFile (Logger.self s)) as [f|]; simpl.
  - specialize (Hnow f).
    destruct (File_Close f (Logger.world s)) as [r0 w1]. simpl in *.
    destruct (Hopen w1) as (Hr & Hl & Hn).
    destruct (os_OpenFile rt path w1) as [r w2]. simpl in *. subst r. simpl.
    exists (length (files w1)). repeat split; [ exact Hl | congruence ].
  - destruct (Hopen (Logger.world s)) as (Hr & Hl & Hn).
    destruct (os_OpenFile rt path (Logger.world s)) as [r w2]. simpl in *.
    subst r. simpl.
    exists (length (files (Logger.world s))). repeat split; assumption.
Qed.

(** X12. After a successful [EnableFile(path)] a passing call appends its
    record (the one the settings of the logger and the message of the call
    give) to the file of [path], after what the file held, and to no
    other file: the file of the former sink gets nothing more. *)
Theorem EnableFile_redirects :
  forall sev cl name m, In (sev, cl, name, m) (leveled rt) ->
  forall s path msg v g,
  can_open rt path = true ->
  Logger.level (Logger.self s) <= sev ->
  cl (Logger.self s) = Some g ->
  let s1 := snd (Logger.EnableFile rt path s) in
  let s2 := snd (m msg v s1) in
  let text := match v with
              | [] => msg
              | _ :: _ => fmt_Sprintf rt msg v
              end in
  let rec := file_record rt (Logger.self s) (Logger.world s) name text in
  file_content (Logger.world s2) path
  = file_content (Logger.world s) path ++ [rec]
  /\ forall nm, nm <> path ->
     file_content (Logger.world s2) nm = file_content (Logger.world s) nm.
Proof.
  intros sev cl name m Hin s path msg v g Hc Hle Hcl s1 s2 text rec.
  destruct (EnableFile_opened s path Hc) as (n & _ & Hself & Hfile & Hnow).
  fold s1 in Hself, Hfile, Hnow.
  assert (Hle1 : Logger.level (Logger.self s1) <= sev)
    by (rewrite Hself; exact Hle).
  assert (Hcl1 : cl (Logger.self s1) = Some g)
    by (rewrite Hself, (leveled_cl_set_logFile sev cl name m Hin); exact Hcl).
  destruct (leveled_passing_world rt sev cl name m Hin msg v s1 g Hle1 Hcl1)
    as (_ & Hd & _ & _ & _).
  fold s2 in Hd.
  destruct (formatted_parts msg v (Logger.world s1)) as (_ & Fd & Ff & Fn & _).
  assert (Hrec :
    file_record rt (Logger.self s1) (formatted msg v (Logger.world s1)) name
      (full_message rt msg v) = rec).
  { rewrite (file_record_now _ _ (Logger.world s) name _
               (eq_trans Fn Hnow)).
    rewrite Hself. reflexivity. }
  assert (Hcontent : forall nm,
    file_content (Logger.world s2) nm
    = if String.eqb nm path
      then file_content (Logger.world s) nm
           ++ [file_record rt (Logger.self s1)
                 (formatted msg v (Logger.world s1)) name (full_message rt msg v)]
      else file_content (Logger.world s) nm).
  { intros nm. unfold file_content at 1. rewrite Hd.
    change (default [] (disk ?w !! nm)) with (file_content w nm).
    rewrite (emitted_content_open g name _ _ _ n
               {| f_name := path; f_closed := false |});
      [ | rewrite Hself; reflexivity | rewrite Ff; exact Hfile | reflexivity ].
    simpl. unfold file_content at 1 2. rewrite Fd.
    change (default [] (disk (Logger.world s1) !! nm))
      with (file_content (Logger.world s1) nm).
    unfold s1. rewrite EnableFile_content. reflexivity. }
  split.
  - rewrite Hcontent, String.eqb_refl, Hrec. reflexivity.
  - intros nm Hne. rewrite Hcontent.
    destruct (String.eqb_spec nm path) as [-> | _]; [ congruence | reflexivity ].
Qed.

Lemma sink_open_same (s s' : Logger.State) :
  Logger.self s' = Logger.self s ->
  files (Logger.world s') = files (Logger.world s) ->
  sink_open s' = sink_open s.
Proof. intros Hs Hf. unfold sink_open, is_open. rewrite Hs, Hf. reflexivity. Qed.

Lemma formatted_content msg v w nm :
  file_content (formatted msg v w) nm = file_content w nm.
Proof. destruct v; reflexivity. Qed.

(** X13. Passing [Info] calls made one after the other leave their lines
    on the console, and their records in the file of an open sink, in the
    order of the calls and after what was there; no other file changes. *)
Theorem info_calls_in_order :
  forall (items : list (string * list any)) s g,
  Logger.level (Logger.self s) <= INFO ->
  Logger.infoLogger (Logger.self s) = Some g ->
  let w := Logger.world s in
  let s' := snd (do_calls rt (info_calls items) s) in
  fst (do_calls rt (info_calls items) s) = Some tt
  /\ Logger.self s' = Logger.self s
  /\ console (Logger.world s')
     = console w
       ++ map (fun it => (lg_out g,
                          lg_prefix g +:+ log_header rt (lg_flag g) (now w)
                          +:+ full_message rt (fst it) (snd it) +:+ nl)) items
  /\ (forall f e, Logger.logFile (Logger.self s) = Some f ->
                  files w !! f = Some e -> f_closed e = false ->
       forall nm,
       file_content (Logger.world s') nm
       = if String.eqb nm (f_name e)
         then file_content w nm
              ++ map (fun it => file_record rt (Logger.self s) w "INFO"
                                  (full_message rt (fst it) (snd it))) items
         else file_content w nm).
Proof.
  intros items. induction items as [ | [msg v] items IH ]; intros s g Hle Hg w s'.
  - simpl. repeat split.
    + rewrite app_nil_r. reflexivity.
    + intros f e _ _ _ nm. rewrite app_nil_r.
      destruct (String.eqb nm (f_name e)); reflexivity.
  - assert (Hin : In (INFO, Logger.infoLogger, "INFO", Logger.Info rt) (leveled rt))
      by (simpl; auto).
    pose proof (leveled_passing rt INFO Logger.infoLogger "INFO" (Logger.Info rt)
                  Hin msg v s g Hle Hg) as Heq.
    simpl in Heq. fold w in Heq.
    unfold s'. simpl. unfold Logger.bind. rewrite Heq.
    set (s1 := {| Logger.self := Logger.self s;
                  Logger.world :=
                    emitted rt g "INFO" (full_message rt msg v) (Logger.self s)
                      (formatted msg v w) |}) in *.
    destruct (formatted_parts msg v w) as (Fc & Fd & Ff & Fn & _).
    assert (Hnow1 : now (Logger.world s1) = now w)
      by (unfold s1; simpl; rewrite emitted_now; exact Fn).
    specialize (IH s1 g Hle Hg). cbv zeta in IH.
    destruct IH as (I1 & I2 & I3 & I4).
    split; [ exact I1 | ]. split; [ exact I2 | ]. split.
    + rewrite I3, Hnow1. unfold s1. simpl.
      rewrite emitted_console, Fc, Fn, <- app_assoc. reflexivity.
    + intros f e Hf He Hc nm.
      assert (He1 : files (Logger.world s1) !! f = Some e)
        by (unfold s1; simpl; rewrite emitted_files, Ff; exact He).
      rewrite (I4 f e Hf He1 Hc nm).
      unfold s1 at 1 3. simpl.
      rewrite !(emitted_content_open g "INFO" _ _ _ f e nm Hf)
        by (rewrite ?Ff; assumption).
      rewrite !formatted_content.
      destruct (String.eqb nm (f_name e)); [ | reflexivity ].
      rewrite <- app_assoc. simpl. f_equal. f_equal.
      * apply file_record_now. exact Fn.
      * apply map_ext. intros it. apply file_record_now. exact Hnow1.
Qed.

(** X14. The threshold [SetLevel] stores decides the next call: a method
    prints its line when its severity is at or above the new threshold,
    and leaves the world as it was when it is below, for any integer. *)
Theorem SetLevel_then_call :
  forall sev cl name m, In (sev, cl, name, m) (leveled rt) ->
  forall lv msg v s g,
  cl (Logger.self s) = Some g ->
  let s' := snd (Logger.bind (Logger.SetLevel lv) (fun _ => m msg v) s) in
  if lv <=? sev
  then console (Logger.world s')
       = console (Logger.world s)
         ++ [(lg_out g,
              lg_prefix g +:+ log_header rt (lg_flag g) (now (Logger.world s))
              +:+ full_message rt msg v +:+ nl)]
  else Logger.world s' = Logger.world s.
Proof.
  intros sev cl name m Hin lv msg v s g Hcl s'.
  unfold s', Logger.bind, Logger.SetLevel, Logger.modify_self. simpl.
  set (s1 := {| Logger.self := Logger.set_level lv (Logger.self s);
                Logger.world := Logger.world s |}).
  assert (Hcl1 : cl (Logger.self s1) = Some g).
  { rewrite <- Hcl. simpl in Hin.
    repeat (destruct Hin as [Hin | Hin]; [ inversion Hin; reflexivity | ]).
    contradiction. }
  destruct (Z.leb_spec lv sev) as [Hle | Hlt].
  - destruct (leveled_passing_world rt sev cl name m Hin msg v s1 g Hle Hcl1)
      as (Hc & _).
    destruct (formatted_parts msg v (Logger.world s)) as (Fc & _ & _ & Fn & _).
    rewrite Hc. simpl. rewrite emitted_console, Fc, Fn. reflexivity.
  - rewrite (gated_call sev cl name m Hin msg v s1 Hlt). reflexivity.
Qed.

(** X15. A [Fatal] that passes the gate prints and writes like the other
    methods, then leaves the process with status 1: it does not return,
    and no call after it in a sequence runs. *)
Theorem Fatal_ends_the_run :
  forall msg v s g cs,
  Logger.level (Logger.self s) <= FATAL ->
  Logger.fatalLogger (Logger.self s) = Some g ->
  let r := Logger.Fatal rt msg v s in
  fst r = None
  /\ Logger.world (snd r)
     = emit (EvExit 1)
         (emitted rt g "FATAL" (full_message rt msg v) (Logger.self s)
            (formatted msg v (Logger.world s)))
  /\ last (trace (Logger.world (snd r))) = Some (EvExit 1)
  /\ do_calls rt (CFatal msg v :: cs) s = r.
Proof.
  intros msg v s g cs Hle Hg r.
  assert (Hin : In (FATAL, Logger.fatalLogger, "FATAL", Logger.Fatal rt) (leveled rt))
    by (simpl; auto 8).
  pose proof (leveled_passing rt FATAL Logger.fatalLogger "FATAL" (Logger.Fatal rt)
                Hin msg v s g Hle Hg) as Heq.
  simpl in Heq. fold r in Heq.
  assert (Hr : do_calls rt (CFatal msg v :: cs) s = r).
  { simpl. unfold Logger.bind. fold r. rewrite Heq. reflexivity. }
  rewrite Hr, Heq. simpl. repeat split. apply last_snoc.
Qed.

(** X16. No leveled method assigns to the logger or opens or closes a
    file, whatever the state and whether or not the call passes the gate
    or its write succeeds. *)
Theorem logging_keeps_logger_and_files :
  forall sev cl name m, In (sev, cl, name, m) (leveled rt) ->
  forall msg v s,
  Logger.self (snd (m msg v s)) = Logger.self s
  /\ files (Logger.world (snd (m msg v s))) = files (Logger.world s).
Proof.
  intros sev cl name m Hin msg v s. split.
  - apply (keeps_self_leveled rt sev cl name m Hin).
  - apply (keeps_leveled rt sev cl name m Hin).
Qed.

Lemma readback_loop_ascii (fuel : nat) (x : string) :
  (String.length x <= fuel)%nat -> string_forall is_ascii x = true ->
  json.readback_loop fuel x = x.
Proof.
  revert fuel. induction x as [ | c x IH ]; intros fuel Hlen Hx.
  - destruct fuel; reflexivity.
  - destruct fuel as [ | fuel ]; simpl in Hlen; [ lia | ].
    simpl in Hx. apply andb_prop in Hx as [Hc Hx].
    cbn [json.readback_loop]. unfold is_ascii in Hc. rewrite Hc.
    rewrite IH by (lia || exact Hx). reflexivity.
Qed.

(** X17. In structured mode an ASCII message, whatever quotes,
    backslashes, control characters or newlines it holds, is read back
    from the record byte for byte. *)
Theorem structured_ascii_round_trip :
  forall sev cl name m, In (sev, cl, name, m) (leveled rt) ->
  forall msg v s g,
  Logger.level (Logger.self s) <= sev ->
  cl (Logger.self s) = Some g ->
  Logger.jsonMode (Logger.self s) = true ->
  sink_open s = true ->
  string_forall is_ascii (full_message rt msg v) = true ->
  let w := Logger.world s in
  let w' := Logger.world (snd (m msg v s)) in
  exists f e rec fields,
    Logger.logFile (Logger.self s) = Some f /\ files w !! f = Some e
    /\ file_content w' (f_name e) = file_content w (f_name e) ++ [rec]
    /\ json.Unmarshal_line rec = Some fields
    /\ In ("msg", full_message rt msg v) fields.
Proof.
  intros sev cl name m Hin msg v s g Hle Hcl Hj Hs Hascii w w'.
  destruct (leveled_passing_world rt sev cl name m Hin msg v s g Hle Hcl)
    as (_ & Hd & _ & _ & _).
  fold w in Hd. fold w' in Hd.
  destruct (formatted_parts msg v w) as (_ & _ & Ff & _ & _).
  destruct (sink_open_inv s Hs) as (f & e & Hf & He & Hc).
  exists f, e. eexists. eexists. split; [ exact Hf | ]. split; [ exact He | ].
  split.
  { unfold file_content at 1. rewrite Hd.
    change (default [] (disk ?x !! f_name e)) with (file_content x (f_name e)).
    rewrite (emitted_content_open g name _ _ _ f e (f_name e) Hf)
      by (rewrite ?Ff; assumption).
    rewrite String.eqb_refl, formatted_content. reflexivity. }
  unfold file_record. rewrite Hj, Unmarshal_line_Marshal.
  split; [ reflexivity | ].
  assert (Hrb : json.readback (full_message rt msg v) = full_message rt msg v)
    by (apply readback_loop_ascii; [ lia | exact Hascii ]).
  unfold expected_entry.
  destruct (String.eqb (Logger.caller_info rt (Logger.self s)) "").
  - rewrite sorted_entries_3. unfold json.readback_member. simpl.
    rewrite Hrb. auto.
  - rewrite sorted_entries_4. unfold json.readback_member. simpl.
    rewrite Hrb. auto.
Qed.

(** X18. [log] at a level that is none of the five prints nothing on the
    console.  Without a sink it does nothing at all; in plain mode it
    writes the line with no level tag; in structured mode taking the name
    out of the empty tag is out of range and the call panics before
    anything is written. *)
Theorem log_at_unknown_level :
  forall level msg s,
  level < DEBUG \/ FATAL < level ->
  Logger.level (Logger.self s) <= level ->
  let r := Logger.log rt level msg s in
  console (Logger.world (snd r)) = console (Logger.world s)
  /\ (Logger.logFile (Logger.self s) = None -> r = (Some tt, s))
  /\ (forall f, Logger.logFile (Logger.self s) = Some f ->
      Logger.jsonMode (Logger.self s) = true ->
      fst r = None
      /\ Logger.world (snd r)
         = emit (EvPanic "slice bounds out of range") (Logger.world s))
  /\ (forall f, Logger.logFile (Logger.self s) = Some f ->
      Logger.jsonMode (Logger.self s) = false ->
      let caller := Logger.caller_info rt (Logger.self s) in
      let line :=
        time_Format rt (now (Logger.world s)) (Logger.timeFormat (Logger.self s))
        +:+ " " +:+ msg
        +:+ (if String.eqb caller "" then "" else " (" +:+ caller +:+ ")") in
      r = (Some tt,
           {| Logger.self := Logger.self s;
              Logger.world := snd (File_Write f (line +:+ nl) (Logger.world s)) |})).
Proof.
  intros level msg s Hout Hle r. unfold r. step_methods.
  rewrite ltb_of_le by exact Hle.
  assert (H0 : (level =? DEBUG) = false) by (apply Z.eqb_neq; unfold DEBUG, FATAL in *; lia).
  assert (H1 : (level =? INFO) = false) by (apply Z.eqb_neq; unfold DEBUG, INFO, FATAL in *; lia).
  assert (H2 : (level =? WARNING) = false) by (apply Z.eqb_neq; unfold DEBUG, WARNING, FATAL in *; lia).
  assert (H3 : (level =? ERROR) = false) by (apply Z.eqb_neq; unfold DEBUG, ERROR, FATAL in *; lia).
  assert (H4 : (level =? FATAL) = false) by (apply Z.eqb_neq; unfold DEBUG, FATAL in *; lia).
  rewrite H0, H1, H2, H3, H4. simpl.
  split; [ | split; [ | split ] ].
  - destruct (Logger.logFile (Logger.self s)) as [f|]; [ | reflexivity ].
    destruct (Logger.jsonMode (Logger.self s)); simpl; [ reflexivity | ].
    unfold fmt_Fprintln, File_Write.
    destruct (files (Logger.world s) !! f) as [e|]; [ destruct (f_closed e) | ];
      reflexivity.
  - intros Hnone. rewrite Hnone. destruct s; reflexivity.
  - intros f Hf Hj. rewrite Hf, Hj. simpl. split; reflexivity.
  - intros f Hf Hj. rewrite Hf, Hj. simpl. unfold fmt_Fprintln.
    destruct (String.eqb (Logger.caller_info rt (Logger.self s)) "");
      repeat (progress (rewrite ?string_app_assoc; simpl));
      rewrite ?string_app_nil_r;
      match goal with
      | |- context [File_Write ?a ?b ?c] => destruct (File_Write a b c)
      end; reflexivity.
Qed.

(** X19. [Close] assigns nothing to the logger and writes nothing; once
    it closed the sink, passing calls still print their line on the
    console and no file changes. *)
Theorem logging_after_Close :
  forall s,
  sink_open s = true ->
  let s1 := snd (Logger.Close s) in
  Logger.self s1 = Logger.self s
  /\ disk (Logger.world s1) = disk (Logger.world s)
  /\ console (Logger.world s1) = console (Logger.world s)
  /\ sink_open s1 = false
  /\ (forall sev cl name m, In (sev, cl, name, m) (leveled rt) ->
      forall msg v g,
      Logger.level (Logger.self s) <= sev -> cl (Logger.self s) = Some g ->
      let w' := Logger.world (snd (m msg v s1)) in
      console w'
      = console (Logger.world s)
        ++ [(lg_out g,
             lg_prefix g +:+ log_header rt (lg_flag g) (now (Logger.world s))
             +:+ full_message rt msg v +:+ nl)]
      /\ disk w' = disk (Logger.world s)).
Proof.
  intros s Hs s1.
  destruct (sink_open_inv s Hs) as (f & e & Hf & He & Hc).
  assert (Hs1 : s1 = {| Logger.self := Logger.self s;
                        Logger.world :=
                          emit (EvClose f None)
                            (with_files
                               (<[f := {| f_name := f_name e; f_closed := true |}]>
                                  (files (Logger.world s))) (Logger.world s)) |}).
  { unfold s1. rewrite Close_result, Hf. simpl.
    rewrite (File_Close_open f _ e He Hc). reflexivity. }
  assert (Hclosed : sink_open s1 = false).
  { rewrite Hs1. unfold sink_open, is_open. simpl. rewrite Hf.
    rewrite list_lookup_insert_eq by (eapply lookup_lt_Some; exact He).
    reflexivity. }
  split; [ rewrite Hs1; reflexivity | ].
  split; [ rewrite Hs1; reflexivity | ].
  split; [ rewrite Hs1; reflexivity | ].
  split; [ exact Hclosed | ].
  intros sev cl name m Hin msg v g Hle Hcl w'.
  assert (Hle1 : Logger.level (Logger.self s1) <= sev) by (rewrite Hs1; exact Hle).
  assert (Hcl1 : cl (Logger.self s1) = Some g) by (rewrite Hs1; exact Hcl).
  destruct (leveled_passing_world rt sev cl name m Hin msg v s1 g Hle1 Hcl1)
    as (Hcon & Hd & _ & _ & _).
  fold w' in Hcon, Hd.
  destruct (formatted_parts msg v (Logger.world s1)) as (Fc & Fd & Ff & Fn & _).
  split.
  - rewrite Hcon, emitted_console, Fc, Fn. rewrite Hs1. reflexivity.
  - rewrite Hd, emitted_disk_closed.
    + rewrite Fd, Hs1. reflexivity.
    + rewrite <- Hclosed. apply sink_open_same; [ reflexivity | exact Ff ].
Qed.

Lemma console_after_mutator :
  forall sev cl name m, In (sev, cl, name, m) (leveled rt) ->
  forall msg v s g,
  cl (Logger.self s) = Some g ->
  forall mutator,
  In mutator [Logger.WithJSON] \/
  (exists layout, mutator = Logger.WithTimeFormat layout) \/
  (exists enable, mutator = Logger.WithCaller enable) ->
  console (Logger.world (snd (m msg v (snd (mutator s)))))
  = console (Logger.world (snd (m msg v s))).
Proof.
  intros sev cl name m Hin msg v s g Hcl mutator Hmut.
  assert (Hshape : exists l1,
    snd (mutator s) = {| Logger.self := l1; Logger.world := Logger.world s |}
    /\ Logger.level l1 = Logger.level (Logger.self s)
    /\ cl l1 = cl (Logger.self s)).
  { assert (Hcl_any : forall l1,
      Logger.infoLogger l1 = Logger.infoLogger (Logger.self s) ->
      Logger.errorLogger l1 = Logger.errorLogger (Logger.self s) ->
      Logger.debugLogger l1 = Logger.debugLogger (Logger.self s) ->
      Logger.warningLogger l1 = Logger.warningLogger (Logger.self s) ->
      Logger.fatalLogger l1 = Logger.fatalLogger (Logger.self s) ->
      cl l1 = cl (Logger.self s)).
    { intros l1 A B C D E. simpl in Hin.
      repeat (destruct Hin as [Hin | Hin]; [ inversion Hin; assumption | ]).
      contradiction. }
    destruct Hmut as [[<- | []] | [[layout ->] | [enable ->]]]; step_methods.
    - eexists. split; [ reflexivity | ]. split; [ reflexivity | ].
      apply Hcl_any; reflexivity.
    - destruct (String.eqb layout ""); simpl.
      + exists (Logger.self s). split; [ destruct s; reflexivity | ].
        split; reflexivity.
      + eexists. split; [ reflexivity | ]. split; [ reflexivity | ].
        apply Hcl_any; reflexivity.
    - eexists. split; [ reflexivity | ]. split; [ reflexivity | ].
      apply Hcl_any; reflexivity. }
  destruct Hshape as (l1 & -> & Hlv & Hcl1).
  destruct (Z.le_gt_cases (Logger.level (Logger.self s)) sev) as [Hle | Hgt].
  - destruct (leveled_passing_world rt sev cl name m Hin msg v s g Hle Hcl)
      as (Hc & _).
    destruct (leveled_passing_world rt sev cl name m Hin msg v
                {| Logger.self := l1; Logger.world := Logger.world s |} g)
      as (Hc1 & _); [ simpl; lia | simpl; congruence | ].
    rewrite Hc, Hc1. simpl. rewrite !emitted_console. reflexivity.
  - rewrite (gated_call sev cl name m Hin msg v s) by lia.
    rewrite (gated_call sev cl name m Hin msg v
               {| Logger.self := l1; Logger.world := Logger.world s |})
      by (simpl; lia).
    reflexivity.
Qed.

(** X20. The console line does not depend on the settings of the file
    side: after [WithJSON], [WithTimeFormat] or [WithCaller] a call prints
    on the console what it would have printed before. *)
Theorem console_ignores_file_settings :
  forall sev cl name m, In (sev, cl, name, m) (leveled rt) ->
  forall msg v s g,
  cl (Logger.self s) = Some g ->
  console (Logger.world (snd (m msg v (snd (Logger.WithJSON s)))))
  = console (Logger.world (snd (m msg v s)))
  /\ (forall layout,
      console (Logger.world (snd (m msg v (snd (Logger.WithTimeFormat layout s)))))
      = console (Logger.world (snd (m msg v s))))
  /\ (forall enable,
      console (Logger.world (snd (m msg v (snd (Logger.WithCaller enable s)))))
      = console (Logger.world (snd (m msg v s)))).
Proof.
  intros sev cl name m Hin msg v s g Hcl. split; [ | split ].
  - apply (console_after_mutator sev cl name m Hin msg v s g Hcl).
    left. left. reflexivity.
  - intros layout. apply (console_after_mutator sev cl name m Hin msg v s g Hcl).
    right. left. exists layout. reflexivity.
  - intros enable. apply (console_after_mutator sev cl name m Hin msg v s g Hcl).
    right. right. exists enable. reflexivity.
Qed.

(** X21. A layout and a caller flag set at run time shape the next
    record: after [WithTimeFormat(layout)], [layout] not empty, and
    [WithCaller(false)], a passing call in plain mode with an open sink
    appends the time in that layout, the level in brackets and the
    message, with no caller. *)
Theorem settings_shape_the_next_line :
  forall sev cl name m, In (sev, cl, name, m) (leveled rt) ->
  forall layout msg v s g,
  layout <> "" ->
  Logger.level (Logger.self s) <= sev ->
  cl (Logger.self s) = Some g ->
  Logger.jsonMode (Logger.self s) = false ->
  sink_open s = true ->
  let s1 := snd (Logger.WithCaller false (snd (Logger.WithTimeFormat layout s))) in
  let w' := Logger.world (snd (m msg v s1)) in
  exists f e,
    Logger.logFile (Logger.self s) = Some f
    /\ files (Logger.world s) !! f = Some e
    /\ file_content w' (f_name e)
       = file_content (Logger.world s) (f_name e)
         ++ [time_Format rt (now (Logger.world s)) layout
             +:+ " [" +:+ name +:+ "] " +:+ full_message rt msg v +:+ nl].
Proof.
  intros sev cl name m Hin layout msg v s g Hne Hle Hcl Hj Hs s1 w'.
  assert (Hs1 : s1 = {| Logger.self :=
                          Logger.set_withCaller false
                            (Logger.set_timeFormat layout (Logger.self s));
                        Logger.world := Logger.world s |}).
  { unfold s1. step_methods.
    destruct (String.eqb_spec layout "") as [-> | _]; [ congruence | ].
    reflexivity. }
  destruct (sink_open_inv s Hs) as (f & e & Hf & He & Hc).
  exists f, e. split; [ exact Hf | ]. split; [ exact He | ].
  assert (Hle1 : Logger.level (Logger.self s1) <= sev) by (rewrite Hs1; exact Hle).
  assert (Hcl1 : cl (Logger.self s1) = Some g).
  { rewrite Hs1, <- Hcl. simpl. simpl in Hin.
    repeat (destruct Hin as [Hin | Hin]; [ inversion Hin; reflexivity | ]).
    contradiction. }
  destruct (leveled_passing_world rt sev cl name m Hin msg v s1 g Hle1 Hcl1)
    as (_ & Hd & _ & _ & _).
  fold w' in Hd.
  destruct (formatted_parts msg v (Logger.world s1)) as (_ & _ & Ff & Fn & _).
  unfold file_content at 1. rewrite Hd.
  change (default [] (disk ?x !! f_name e)) with (file_content x (f_name e)).
  rewrite (emitted_content_open g name _ _ _ f e (f_name e));
    [ | rewrite Hs1; exact Hf | rewrite Ff, Hs1; exact He | exact Hc ].
  rewrite String.eqb_refl, formatted_content.
  unfold file_record, expected_plain_line. rewrite Fn, Hs1. simpl.
  rewrite Hj. unfold Logger.caller_info. simpl.
  repeat (progress (rewrite ?string_app_assoc; simpl)). reflexivity.
Qed.

(** X22. No method undoes what construction or [WithJSON] set: through any
    sequence of calls the console destination, the five console loggers
    and [filePath] stay what [NewLogger] made them ([EnableFile] does not
    record its path in [filePath]), and structured mode, once on, stays on. *)
Theorem calls_keep_construction_fields :
  forall (cs : list Call) s,
  let s' := snd (do_calls rt cs s) in
  (forall fld, is_config fld = false \/ fld = FOut \/ fld = FFilePath ->
     fld <> FLogFile ->
     field_eq fld (Logger.self s') (Logger.self s))
  /\ (Logger.jsonMode (Logger.self s) = true ->
      Logger.jsonMode (Logger.self s') = true).
Proof.
  assert (Hcall : forall c s,
    (forall fld, is_config fld = false \/ fld = FOut \/ fld = FFilePath ->
       fld <> FLogFile ->
       field_eq fld (Logger.self (snd (do_call rt c s))) (Logger.self s))
    /\ (Logger.jsonMode (Logger.self s) = true ->
        Logger.jsonMode (Logger.self (snd (do_call rt c s))) = true)).
  { intros c s. set (l' := Logger.self (snd (do_call rt c s))).
    assert (E : Logger.infoLogger l' = Logger.infoLogger (Logger.self s)
                /\ Logger.errorLogger l' = Logger.errorLogger (Logger.self s)
                /\ Logger.debugLogger l' = Logger.debugLogger (Logger.self s)
                /\ Logger.warningLogger l' = Logger.warningLogger (Logger.self s)
                /\ Logger.fatalLogger l' = Logger.fatalLogger (Logger.self s)
                /\ Logger.out l' = Logger.out (Logger.self s)
                /\ Logger.filePath l' = Logger.filePath (Logger.self s)
                /\ (Logger.jsonMode (Logger.self s) = true ->
                    Logger.jsonMode l' = true)).
    { assert (Hsame : l' = Logger.self s ->
        Logger.infoLogger l' = Logger.infoLogger (Logger.self s)
        /\ Logger.errorLogger l' = Logger.errorLogger (Logger.self s)
        /\ Logger.debugLogger l' = Logger.debugLogger (Logger.self s)
        /\ Logger.warningLogger l' = Logger.warningLogger (Logger.self s)
        /\ Logger.fatalLogger l' = Logger.fatalLogger (Logger.self s)
        /\ Logger.out l' = Logger.out (Logger.self s)
        /\ Logger.filePath l' = Logger.filePath (Logger.self s)
        /\ (Logger.jsonMode (Logger.self s) = true ->
            Logger.jsonMode l' = true)) by (intros ->; repeat split; auto).
      destruct c; cbn [do_call] in l'.
      - apply Hsame. apply (keeps_self_leveled rt DEBUG _ _ _ ltac:(simpl; auto)).
      - apply Hsame. apply (keeps_self_leveled rt INFO _ _ _ ltac:(simpl; auto)).
      - apply Hsame. apply (keeps_self_leveled rt WARNING _ _ _ ltac:(simpl; auto 6)).
      - apply Hsame. apply (keeps_self_leveled rt ERROR _ _ _ ltac:(simpl; auto 7)).
      - apply Hsame. apply (keeps_self_leveled rt FATAL _ _ _ ltac:(simpl; auto 8)).
      - apply Hsame. unfold l', Logger.bind. rewrite Close_result.
        destruct (Logger.logFile (Logger.self s)); reflexivity.
      - clear Hsame. repeat split; auto.
      - apply Hsame. reflexivity.
      - clear Hsame. unfold l'. step_methods.
        destruct (String.eqb layout ""); repeat split; auto.
      - clear Hsame. repeat split; auto.
      - clear Hsame. repeat split; auto.
      - clear Hsame. unfold l'. step_methods.
        destruct (Logger.logFile (Logger.self s)) as [f|]; simpl;
          [ destruct (File_Close f (Logger.world s)); simpl | ];
          repeat split; auto.
      - clear Hsame. unfold l'. step_methods.
        destruct (Logger.logFile (Logger.self s)) as [f|]; simpl.
        + destruct (File_Close f (Logger.world s)) as [r0 w1]. simpl.
          destruct (os_OpenFile rt path w1) as [[f'|err] w2]; simpl;
            repeat split; auto.
        + destruct (os_OpenFile rt path (Logger.world s)) as [[f'|err] w2];
            simpl; repeat split; auto. }
    destruct E as (A & B & C & D & E & F & G & H). split; [ | exact H ].
    intros fld Hk Hn. destruct fld; simpl; try assumption; try congruence;
      destruct Hk as [Hk | [Hk | Hk]]; discriminate Hk. }
  intros cs. induction cs as [ | c cs IH ]; intros s s'.
  - unfold s'. simpl. split; [ intros fld _ _; destruct fld; reflexivity | auto ].
  - unfold s'. simpl. unfold Logger.bind.
    destruct (Hcall c s) as [H1 H2].
    destruct (do_call rt c s) as [[[]|] s1]; simpl in *; [ | split; assumption ].
    destruct (IH s1) as [I1 I2]. split.
    + intros fld Hk Hn. specialize (H1 fld Hk Hn). specialize (I1 fld Hk Hn).
      destruct fld; simpl in *; congruence.
    + intros Hj. apply I2, H2, Hj.
Qed.

End RunTime.

Lemma WithColors_changes_no_output_witness :
  fst (Logger.Info Example.rt "hi" []
         (snd (Logger.WithColors true Example.plain)))
  = fst (Logger.Info Example.rt "hi" [] Example.plain)
  /\ console (Logger.world
                (snd (Logger.Info Example.rt "hi" []
                        (snd (Logger.WithColors true Example.plain)))))
     = console (Logger.world (snd (Logger.Info Example.rt "hi" [] Example.plain))).
Proof.
  destruct (WithColors_changes_no_output Example.rt INFO Logger.infoLogger "INFO"
              (Logger.Info Example.rt) info_is_leveled true "hi" [] Example.plain)
    as (_ & _ & H1 & _ & H2).
  split; [ exact H1 | ]. rewrite H2. reflexivity.
Defined.

Lemma DisableFile_is_idempotent_witness :
  Logger.logFile (Logger.self Example.console_only) = None
  /\ Logger.DisableFile Example.console_only = (Some tt, Example.console_only)
  /\ Logger.Close (snd (Logger.DisableFile Example.plain))
     = (Some None, snd (Logger.DisableFile Example.plain)).
Proof.
  assert (H : Logger.logFile (Logger.self Example.console_only) = None)
    by reflexivity.
  split; [ exact H | ]. split.
  - exact (proj1 (proj2 (DisableFile_is_idempotent Example.rt Example.console_only))
             H).
  - exact (proj1 (proj2 (proj2 (proj2 (proj2
             (DisableFile_is_idempotent Example.rt Example.plain)))))).
Defined.

Lemma EnableFile_failure_without_sink_witness :
  Logger.logFile (Logger.self Example.console_only) = None
  /\ can_open Example.rt "/nonexistent/b.log" = false
  /\ fst (Logger.EnableFile Example.rt "/nonexistent/b.log" Example.console_only)
     = Some (Some (ErrOpen "/nonexistent/b.log")).
Proof.
  assert (H1 : Logger.logFile (Logger.self Example.console_only) = None)
    by reflexivity.
  assert (H2 : can_open Example.rt "/nonexistent/b.log" = false) by reflexivity.
  split; [ exact H1 | ]. split; [ exact H2 | ].
  exact (proj1 (EnableFile_failure_without_sink Example.rt Example.console_only
                  "/nonexistent/b.log" H1 H2)).
Defined.

Lemma EnableFile_redirects_witness :
  can_open Example.rt "b.log" = true
  /\ Logger.level (Logger.self Example.plain) <= INFO
  /\ Logger.infoLogger (Logger.self Example.plain) = Some Example.info_logger
  /\ file_content
       (Logger.world
          (snd (Logger.Info Example.rt "moved" []
                  (snd (Logger.EnableFile Example.rt "b.log" Example.plain)))))
       "b.log"
     = ["2006-01-02 15:04:05@1700000000 [INFO] moved (main.go:42)" +:+ nl]
  /\ file_content
       (Logger.world
          (snd (Logger.Info Example.rt "moved" []
                  (snd (Logger.EnableFile Example.rt "b.log" Example.plain)))))
       "app.log" = [].
Proof.
  assert (H0 : can_open Example.rt "b.log" = true) by reflexivity.
  assert (H1 : Logger.level (Logger.self Example.plain) <= INFO)
    by (vm_compute; discriminate).
  assert (H2 : Logger.infoLogger (Logger.self Example.plain)
               = Some Example.info_logger) by reflexivity.
  split; [ exact H0 | ]. split; [ exact H1 | ]. split; [ exact H2 | ].
  destruct (EnableFile_redirects Example.rt INFO Logger.infoLogger "INFO"
              (Logger.Info Example.rt) info_is_leveled Example.plain "b.log"
              "moved" [] Example.info_logger H0 H1 H2) as (Hrec & Hother).
  split; [ exact Hrec | ]. rewrite Hother by discriminate. reflexivity.
Defined.

Lemma info_calls_in_order_witness :
  Logger.level (Logger.self Example.plain) <= INFO
  /\ Logger.infoLogger (Logger.self Example.plain) = Some Example.info_logger
  /\ console (Logger.world
                (snd (do_calls Example.rt
                        (info_calls [("one", []); ("two %d", [AInt 2])])
                        Example.plain)))
     = [(Stdout, "[INFO] 12:00:00 one" +:+ nl);
        (Stdout, "[INFO] 12:00:00 two 2" +:+ nl)].
Proof.
  assert (H1 : Logger.level (Logger.self Example.plain) <= INFO)
    by (vm_compute; discriminate).
  assert (H2 : Logger.infoLogger (Logger.self Example.plain)
               = Some Example.info_logger) by reflexivity.
  split; [ exact H1 | ]. split; [ exact H2 | ].
  exact (proj1 (proj2 (proj2
           (info_calls_in_order Example.rt [("one", []); ("two %d", [AInt 2])]
              Example.plain Example.info_logger H1 H2)))).
Defined.

Lemma SetLevel_then_call_witness :
  Logger.infoLogger (Logger.self Example.plain) = Some Example.info_logger
  /\ Logger.world
       (snd (Logger.bind (Logger.SetLevel ERROR)
               (fun _ => Logger.Info Example.rt "quiet" []) Example.plain))
     = Logger.world Example.plain.
Proof.
  assert (H : Logger.infoLogger (Logger.self Example.plain)
              = Some Example.info_logger) by reflexivity.
  split; [ exact H | ].
  exact (SetLevel_then_call Example.rt INFO Logger.infoLogger "INFO"
           (Logger.Info Example.rt) info_is_leveled ERROR "quiet" []
           Example.plain Example.info_logger H).
Defined.

Lemma Fatal_ends_the_run_witness :
  Logger.level (Logger.self Example.plain) <= FATAL
  /\ Logger.fatalLogger (Logger.self Example.plain)
     = Some (log_New Stdout "[FATAL] " log_Ltime)
  /\ do_calls Example.rt [CFatal "bye" []; CInfo "never" []] Example.plain
     = Logger.Fatal Example.rt "bye" [] Example.plain.
Proof.
  assert (H1 : Logger.level (Logger.self Example.plain) <= FATAL)
    by (vm_compute; discriminate).
  assert (H2 : Logger.fatalLogger (Logger.self Example.plain)
               = Some (log_New Stdout "[FATAL] " log_Ltime)) by reflexivity.
  split; [ exact H1 | ]. split; [ exact H2 | ].
  exact (proj2 (proj2 (proj2
           (Fatal_ends_the_run Example.rt "bye" [] Example.plain _
              [CInfo "never" []] H1 H2)))).
Defined.

Lemma logging_keeps_logger_and_files_witness :
  Logger.self (snd (Logger.Info Example.rt "x" [] Example.plain))
  = Logger.self Example.plain.
Proof.
  exact (proj1 (logging_keeps_logger_and_files Example.rt INFO Logger.infoLogger
                  "INFO" (Logger.Info Example.rt) info_is_leveled "x" []
                  Example.plain)).
Defined.

Lemma structured_ascii_round_trip_witness :
  let msg := "say " +:+ String quote ("hi" +:+ String quote (nl +:+ "bye")) in
  Logger.level (Logger.self Example.structured) <= INFO
  /\ Logger.infoLogger (Logger.self Example.structured) = Some Example.info_logger
  /\ Logger.jsonMode (Logger.self Example.structured) = true
  /\ sink_open Example.structured = true
  /\ string_forall is_ascii (full_message Example.rt msg []) = true
  /\ exists rec fields,
       file_content
         (Logger.world (snd (Logger.Info Example.rt msg [] Example.structured)))
         "app.log" = [rec]
       /\ json.Unmarshal_line rec = Some fields
       /\ In ("msg", msg) fields.
Proof.
  intros msg.
  assert (H1 : Logger.level (Logger.self Example.structured) <= INFO)
    by (vm_compute; discriminate).
  assert (H2 : Logger.infoLogger (Logger.self Example.structured)
               = Some Example.info_logger) by reflexivity.
  assert (H3 : Logger.jsonMode (Logger.self Example.structured) = true)
    by reflexivity.
  assert (H4 : sink_open Example.structured = true) by reflexivity.
  assert (H5 : string_forall is_ascii (full_message Example.rt msg []) = true)
    by reflexivity.
  split; [ exact H1 | ]. split; [ exact H2 | ]. split; [ exact H3 | ].
  split; [ exact H4 | ]. split; [ exact H5 | ].
  destruct (structured_ascii_round_trip Example.rt INFO Logger.infoLogger "INFO"
              (Logger.Info Example.rt) info_is_leveled msg []
              Example.structured Example.info_logger H1 H2 H3 H4 H5)
    as (f & e & rec & fields & Hf & He & Hcontent & Hparse & Hin).
  injection Hf as <-. injection He as <-.
  exists rec, fields. split; [ exact Hcontent | ]. split; [ exact Hparse | exact Hin ].
Defined.

Lemma log_at_unknown_level_witness :
  (7 < DEBUG \/ FATAL < 7)
  /\ Logger.level (Logger.self Example.plain) <= 7
  /\ console (Logger.world (snd (Logger.log Example.rt 7 "odd" Example.plain)))
     = console (Logger.world Example.plain).
Proof.
  assert (H1 : 7 < DEBUG \/ FATAL < 7) by (right; reflexivity).
  assert (H2 : Logger.level (Logger.self Example.plain) <= 7)
    by (vm_compute; discriminate).
  split; [ exact H1 | ]. split; [ exact H2 | ].
  exact (proj1 (log_at_unknown_level Example.rt 7 "odd" Example.plain H1 H2)).
Defined.

Lemma logging_after_Close_witness :
  sink_open Example.plain = true
  /\ sink_open (snd (Logger.Close Example.plain)) = false.
Proof.
  assert (H : sink_open Example.plain = true) by reflexivity.
  split; [ exact H | ].
  exact (proj1 (proj2 (proj2 (proj2
           (logging_after_Close Example.rt Example.plain H))))).
Defined.

Lemma console_ignores_file_settings_witness :
  Logger.infoLogger (Logger.self Example.plain) = Some Example.info_logger
  /\ console (Logger.world
                (snd (Logger.Info Example.rt "x" []
                        (snd (Logger.WithJSON Example.plain)))))
     = console (Logger.world (snd (Logger.Info Example.rt "x" [] Example.plain))).
Proof.
  assert (H : Logger.infoLogger (Logger.self Example.plain)
              = Some Example.info_logger) by reflexivity.
  split; [ exact H | ].
  exact (proj1 (console_ignores_file_settings Example.rt INFO Logger.infoLogger
                  "INFO" (Logger.Info Example.rt) info_is_leveled "x" []
                  Example.plain Example.info_logger H)).
Defined.

Lemma settings_shape_the_next_line_witness :
  "15:04" <> ""
  /\ Logger.level (Logger.self Example.plain) <= INFO
  /\ Logger.infoLogger (Logger.self Example.plain) = Some Example.info_logger
  /\ Logger.jsonMode (Logger.self Example.plain) = false
  /\ sink_open Example.plain = true
  /\ file_content
       (Logger.world
          (snd (Logger.Info Example.rt "tick" []
                  (snd (Logger.WithCaller false
                          (snd (Logger.WithTimeFormat "15:04" Example.plain)))))))
       "app.log"
     = ["15:04@1700000000 [INFO] tick" +:+ nl].
Proof.
  assert (H0 : "15:04" <> "") by discriminate.
  assert (H1 : Logger.level (Logger.self Example.plain) <= INFO)
    by (vm_compute; discriminate).
  assert (H2 : Logger.infoLogger (Logger.self Example.plain)
               = Some Example.info_logger) by reflexivity.
  assert (H3 : Logger.jsonMode (Logger.self Example.plain) = false) by reflexivity.
  assert (H4 : sink_open Example.plain = true) by reflexivity.
  split; [ exact H0 | ]. split; [ exact H1 | ]. split; [ exact H2 | ].
  split; [ exact H3 | ]. split; [ exact H4 | ].
  destruct (settings_shape_the_next_line Example.rt INFO Logger.infoLogger "INFO"
              (Logger.Info Example.rt) info_is_leveled "15:04" "tick" []
              Example.plain Example.info_logger H0 H1 H2 H3 H4)
    as (f & e & Hf & He & Hcontent).
  injection Hf as <-. injection He as <-. exact Hcontent.
Defined.

Lemma calls_keep_construction_fields_witness :
  Logger.jsonMode (Logger.self Example.structured) = true
  /\ Logger.jsonMode
       (Logger.self
          (snd (do_calls Example.rt
                  [CEnableFile "b.log"; CWithCaller true; CDisableFile]
                  Example.structured))) = true.
Proof.
  assert (H : Logger.jsonMode (Logger.self Example.structured) = true)
    by reflexivity.
  split; [ exact H | ].
  exact (proj2 (calls_keep_construction_fields Example.rt
                  [CEnableFile "b.log"; CWithCaller true; CDisableFile]
                  Example.structured) H).
Defined.
